(** * GEM++ adjacency-matrix reader: a shallow embedding and its properties

  The development follows [src/library/Model/AdjacencyMatrixParser.cpp]:
  [parseData] turns a text into a list of trimmed lines and calls
  [parseSingleGraph] twice, threading the line cursor from the first
  call into the second.

  Conventions of the embedding.
  - A [QString] is a [string]; every character is a code unit below 256.
  - A C++ [int] that the code only ever counts upwards from zero (line
    indices, loop counters, the graph index) is a [nat]; an [int] read
    from the text ([vertexCount], [weight]) is a [Z] in the 32-bit range.
    The one addition that can leave that range, [currentLine + vertexCount],
    is undefined behaviour in C++ and yields [Undefined] here.
  - A call either returns, throws an exception, or is undefined. *)

From Stdlib Require Import String Ascii List ZArith Lia Bool Arith DecimalString.
From Stdlib Require Import Sorted.
Import ListNotations.

Local Open Scope string_scope.
Local Open Scope list_scope.
Local Open Scope nat_scope.

(* ===================================================================== *)
(** ** Qt strings *)
(* ===================================================================== *)

Module Qt.

(** The newline and the space, the two separators the parser splits on. *)
Definition LF : ascii := ascii_of_nat 10.
Definition SP : ascii := ascii_of_nat 32.

(** [QChar::isSpace] on the code units below 256: the space, the controls
    9 to 13, the next-line control 0x85 and the no-break space 0xA0. *)
Definition isSpace (c : ascii) : bool :=
  let n := nat_of_ascii c in
  (n =? 32) || ((9 <=? n) && (n <=? 13)) || (n =? 133) || (n =? 160).

(** [QString::isEmpty]. *)
Definition isEmpty (s : string) : bool :=
  match s with EmptyString => true | String _ _ => false end.

Fixpoint trimLeft (s : string) : string :=
  match s with
  | EmptyString => EmptyString
  | String c r => if isSpace c then trimLeft r else s
  end.

Fixpoint trimRight (s : string) : string :=
  match s with
  | EmptyString => EmptyString
  | String c r =>
      match trimRight r with
      | EmptyString => if isSpace c then EmptyString else String c EmptyString
      | r' => String c r'
      end
  end.

(** [QString::trimmed]: white space removed from both ends. *)
Definition trimmed (s : string) : string := trimRight (trimLeft s).

(** [QString::split(sep, KeepEmptyParts)]: the segments between the
    occurrences of [sep]; [n] separators give [n + 1] segments. *)
Fixpoint splitKeep (sep : ascii) (s : string) : list string :=
  match s with
  | EmptyString => [EmptyString]
  | String c r =>
      if Ascii.eqb c sep then EmptyString :: splitKeep sep r
      else match splitKeep sep r with
           | p :: ps => String c p :: ps
           | [] => [String c EmptyString]
           end
  end.

(** [QString::split(sep, QString::SkipEmptyParts)]: the same segments,
    the empty ones left out. *)
Definition split (sep : ascii) (s : string) : list string :=
  filter (fun p => negb (isEmpty p)) (splitKeep sep s).

Definition isDigit (c : ascii) : bool :=
  let n := nat_of_ascii c in (48 <=? n) && (n <=? 57).

Definition digitValue (c : ascii) : Z := Z.of_nat (nat_of_ascii c) - 48.

(** The value of a run of decimal digits, [None] at the first character
    that is not a digit. *)
Fixpoint digitsValue (s : string) (acc : Z) : option Z :=
  match s with
  | EmptyString => Some acc
  | String c r =>
      if isDigit c then digitsValue r (10 * acc + digitValue c) else None
  end.

(** A non-empty run of decimal digits. *)
Definition unsignedValue (s : string) : option Z :=
  match s with
  | EmptyString => None
  | String _ _ => digitsValue s 0
  end.

(** An optional sign followed by a non-empty run of digits. *)
Definition signedValue (s : string) : option Z :=
  match s with
  | String c r =>
      if Ascii.eqb c "+" then unsignedValue r
      else if Ascii.eqb c "-" then option_map Z.opp (unsignedValue r)
      else unsignedValue s
  | EmptyString => None
  end.

Definition INT_MIN : Z := -2147483648.
Definition INT_MAX : Z := 2147483647.

(** [QString::toInt(&ok)] in base 10: surrounding white space is ignored,
    then an optional sign and decimal digits; the value must fit an
    [int]. The pair is (result, ok); a failed conversion gives 0. *)
Definition toInt (s : string) : Z * bool :=
  match signedValue (trimmed s) with
  | Some v => if (INT_MIN <=? v)%Z && (v <=? INT_MAX)%Z then (v, true)
              else (0%Z, false)
  | None => (0%Z, false)
  end.

(** [QString::number(int)] for a non-negative argument: its decimal text. *)
Definition number (n : nat) : string :=
  NilZero.string_of_uint (Nat.to_uint n).

(** The trailing-blank loop of [parseData]:
    [while(!lines.isEmpty() && lines.last().isEmpty()) lines.removeLast();]
    read on the reversed list, where [last] is the head. *)
Fixpoint removeLastWhileEmpty_rev (r : list string) : list string :=
  match r with
  | [] => []
  | x :: r' => if isEmpty x then removeLastWhileEmpty_rev r' else r
  end.

Definition removeLastWhileEmpty (lines : list string) : list string :=
  rev (removeLastWhileEmpty_rev (rev lines)).

End Qt.

(* ===================================================================== *)
(** ** Graphs *)
(* ===================================================================== *)

Module Model.

(** The graph, vertex and edge classes of [Model/Graph.h], [Vertex.h] and
    [Edge.h] are not part of the sources at hand; the parser only calls
    them.  The spec gives their contract: a directed graph owns its
    vertices, addressable by creation index, and its edges; an edge is an
    ordered pair (origin vertex, target vertex); each vertex tracks its
    outgoing and its incoming edges.  A vertex handle is the creation
    index of the vertex. *)

(** Modelled from the spec: the enumeration [Graph::Type], of which the
    parser uses [DIRECTED]. *)
Inductive GraphType := DIRECTED | UNDIRECTED.

(** Modelled from the spec: the enumeration [Vertex::Direction]. *)
Inductive Direction := EDGE_IN | EDGE_OUT.

(** Modelled from the spec: class [Edge], an ordered pair of vertex
    handles. *)
Record Edge := mkEdge { origin : nat; target : nat }.

(** Modelled from the spec: class [Vertex], its label and its incident
    edges in the order they were added. *)
Record Vertex := mkVertex {
  vertexID : string;
  edgesOut : list Edge;
  edgesIn : list Edge
}.

(** Modelled from the spec: class [Graph], its identifier, its vertices in
    creation order and its edges in the order they were added. *)
Record Graph := mkGraph {
  graphType : GraphType;
  graphID : string;
  vertices : list Vertex;
  edges : list Edge
}.

(** Modelled from the spec: [new Graph(type)]. *)
Definition newGraph (t : GraphType) : Graph :=
  mkGraph t EmptyString [] [].

(** Modelled from the spec: [graph->setID(id)]. *)
Definition setID (id : string) (g : Graph) : Graph :=
  mkGraph (graphType g) id (vertices g) (edges g).

(** Modelled from the spec: [new Vertex()]. *)
Definition newVertex : Vertex := mkVertex EmptyString [] [].

(** Modelled from the spec: [graph->addVertex(v, id)]; [v] gets the label
    [id] and the next index. *)
Definition addVertex (v : Vertex) (id : string) (g : Graph) : Graph :=
  mkGraph (graphType g) (graphID g)
          (vertices g ++ [mkVertex id (edgesOut v) (edgesIn v)])
          (edges g).

(** Modelled from the spec: [graph->addEdge(edge)]. *)
Definition addEdge (e : Edge) (g : Graph) : Graph :=
  mkGraph (graphType g) (graphID g) (vertices g) (edges g ++ [e]).

(** Modelled from the spec: [v->addEdge(edge, dir)]. *)
Definition vertexAddEdge (e : Edge) (d : Direction) (v : Vertex) : Vertex :=
  match d with
  | EDGE_OUT => mkVertex (vertexID v) (edgesOut v ++ [e]) (edgesIn v)
  | EDGE_IN => mkVertex (vertexID v) (edgesOut v) (edgesIn v ++ [e])
  end.

Fixpoint alterAt {A : Type} (f : A -> A) (k : nat) (l : list A) {struct l}
  : list A :=
  match l, k with
  | [], _ => []
  | x :: r, O => f x :: r
  | x :: r, S k' => x :: alterAt f k' r
  end.

(** Modelled from the spec: [graph->getVertex(k)->addEdge(edge, dir)]; the
    update reaches the vertex stored in the graph. *)
Definition addEdgeToVertex (k : nat) (e : Edge) (d : Direction) (g : Graph)
  : Graph :=
  mkGraph (graphType g) (graphID g)
          (alterAt (vertexAddEdge e d) k (vertices g))
          (edges g).

End Model.

(* ===================================================================== *)
(** ** The parser *)
(* ===================================================================== *)

Module AdjacencyMatrixParser.

Import Qt Model.

(** The seven [Exception(...)] statements of the parser, in source order,
    each with the values its message template receives through [.arg].
    Rows, columns and graphs are the 1-indexed numbers the code passes
    ([i + 1], [j + 1], [graphIndex + 1]). *)
Inductive Exception :=
| TooFewLines
    (* File must contain at least two graphs (vertex count lines) *)
| UnexpectedEnd (graph : nat)
    (* Unexpected end of file while parsing graph %1 *)
| BadVertexCount (line : string) (graph : nat)
    (* Invalid vertex count '%1' for graph %2 *)
| NotEnoughLines (graph : nat)
    (* Not enough lines for adjacency matrix of graph %1 *)
| BadRowLength (row graph actual : nat) (expected : Z)
    (* Adjacency matrix row %1 of graph %2 has %3 values, expected %4 *)
| BadMatrixToken (value : string) (row col graph : nat)
    (* Invalid adjacency matrix value '%1' at position (%2,%3) in graph %4 *)
| NotZeroOrOne (weight : Z) (row col graph : nat)
    (* Adjacency matrix value %1 at position (%2,%3) in graph %4 is not 0 or 1 *).

(** The error taxonomy of the spec, and the class of each exception. *)
Inductive ErrorKind :=
| MalformedInput
| UnexpectedEndOfInput
| InvalidVertexCount
| InsufficientMatrixRows
| RowLengthMismatch
| InvalidMatrixValue.

Definition kind (e : Exception) : ErrorKind :=
  match e with
  | TooFewLines => MalformedInput
  | UnexpectedEnd _ => UnexpectedEndOfInput
  | BadVertexCount _ _ => InvalidVertexCount
  | NotEnoughLines _ => InsufficientMatrixRows
  | BadRowLength _ _ _ _ => RowLengthMismatch
  | BadMatrixToken _ _ _ _ => InvalidMatrixValue
  | NotZeroOrOne _ _ _ _ => InvalidMatrixValue
  end.

(** Modelled from the spec: the macro [Exception(msg)] of
    [Core/Exception.h], which is not part of the sources at hand.  The spec
    makes every failure fatal to the parse call, so [Exception(msg)] leaves
    the function at once and the caller receives the exception instead of
    a value: the outcome [Throw].  [Undefined] stands for C++ undefined
    behaviour: signed overflow, an index out of range. *)
Inductive result (A : Type) :=
| Return (a : A)
| Throw (e : Exception)
| Undefined.

Arguments Return {A} a.
Arguments Throw {A} e.
Arguments Undefined {A}.

Definition bind {A B : Type} (m : result A) (k : A -> result B) : result B :=
  match m with
  | Return a => k a
  | Throw e => Throw e
  | Undefined => Undefined
  end.

Notation "x <- m ;; k" := (bind m (fun x => k))
  (at level 61, m at next level, right associativity).

(** [list[k]]: an index out of range is undefined. *)
Definition at_ {A : Type} (l : list A) (k : nat) : result A :=
  match nth_error l k with
  | Some x => Return x
  | None => Undefined
  end.

(** [for(int i = first; i < first + count; ++i) body], on a state that the
    body updates; an exception in the body leaves the loop. *)
Fixpoint forLoop {S : Type} (body : nat -> S -> result S)
  (first count : nat) (s : S) : result S :=
  match count with
  | O => Return s
  | Datatypes.S count' =>
      s' <- body first s ;; forLoop body (Datatypes.S first) count' s'
  end.

(** Lines 94 to 101: the edge from vertex [i] to vertex [j], added to the
    graph, to the outgoing edges of [i] and to the incoming edges of [j]. *)
Definition connect (i j : nat) (graph : Graph) : Graph :=
  let edge := mkEdge i j in
  let graph := addEdge edge graph in
  let graph := addEdgeToVertex i edge EDGE_OUT graph in
  addEdgeToVertex j edge EDGE_IN graph.

(** Lines 78 to 103: the body of the loop over the columns [j] of row [i]. *)
Definition parseCell (values : list string) (graphIndex i j : nat)
  (graph : Graph) : result Graph :=
  tok <- at_ values j ;;
  let (weight, ok) := toInt tok in
  if negb ok then Throw (BadMatrixToken tok (i + 1) (j + 1) (graphIndex + 1))
  else if negb (weight =? 0)%Z then
    if negb (weight =? 1)%Z
    then Throw (NotZeroOrOne weight (i + 1) (j + 1) (graphIndex + 1))
    else Return (connect i j graph)
  else Return graph.

(** Lines 69 to 104: the body of the loop over the rows [i]. *)
Definition parseRow (lines : list string) (currentLine : nat)
  (vertexCount : Z) (graphIndex i : nat) (graph : Graph) : result Graph :=
  line <- at_ lines (currentLine + i) ;;
  let values := split SP line in
  if negb (Z.of_nat (length values) =? vertexCount)%Z
  then Throw (BadRowLength (i + 1) (graphIndex + 1) (length values) vertexCount)
  else forLoop (parseCell values graphIndex i) 0 (Z.to_nat vertexCount) graph.

(** Lines 62 to 66: one vertex per index, labelled with the index. *)
Definition addVertices (vertexCount : Z) (graph : Graph) : result Graph :=
  forLoop (fun i graph => Return (addVertex newVertex (number i) graph))
          0 (Z.to_nat vertexCount) graph.

Definition parseSingleGraph (lines : list string) (startLine graphIndex : nat)
  : result (Graph * nat) :=
  if length lines <=? startLine then Throw (UnexpectedEnd (graphIndex + 1))
  else
    countLine <- at_ lines startLine ;;
    let (vertexCount, ok) := toInt countLine in
    if negb ok || (vertexCount <=? 0)%Z
    then Throw (BadVertexCount countLine (graphIndex + 1))
    else
      let currentLine := startLine + 1 in
      if (INT_MAX <? Z.of_nat currentLine + vertexCount)%Z then Undefined
      else if (Z.of_nat (length lines) <? Z.of_nat currentLine + vertexCount)%Z
      then Throw (NotEnoughLines (graphIndex + 1))
      else
        let graph := newGraph DIRECTED in
        let graph := setID (String.append "graph_" (number graphIndex)) graph in
        graph <- addVertices vertexCount graph ;;
        graph <- forLoop (parseRow lines currentLine vertexCount graphIndex)
                         0 (Z.to_nat vertexCount) graph ;;
        Return (graph, currentLine + Z.to_nat vertexCount).

(** Lines 11 to 21 of [parseData]: the line stream. *)
Definition trimmedLines (data : string) : list string :=
  let lines := split LF data in
  let lines := map trimmed lines in
  removeLastWhileEmpty lines.

(** Lines 23 to 36 of [parseData], on the line stream. *)
Definition parseLines (lines : list string) : result (Graph * Graph) :=
  if length lines <? 2 then Throw TooFewLines
  else
    firstGraphResult <- parseSingleGraph lines 0 0 ;;
    let graph1 := fst firstGraphResult in
    let nextLine := snd firstGraphResult in
    secondGraphResult <- parseSingleGraph lines nextLine 1 ;;
    let graph2 := fst secondGraphResult in
    Return (graph1, graph2).

Definition parseData (data : string) : result (Graph * Graph) :=
  parseLines (trimmedLines data).

End AdjacencyMatrixParser.

Import Qt Model AdjacencyMatrixParser.

(* ===================================================================== *)
(** ** Vocabulary of the statements *)
(* ===================================================================== *)

(** A text made of one newline. *)
Definition nl : string := String LF EmptyString.

(** The inputs quoted by the spec, and a few more. *)
Definition twoGraphs : string :=
  ("2" ++ nl ++ "1 0" ++ nl ++ "0 1" ++ nl ++ "1" ++ nl ++ "0" ++ nl)%string.
Definition shortRow : string :=
  ("2" ++ nl ++ "1 0" ++ nl ++ "0" ++ nl)%string.
Definition zeroAlone : string := ("0" ++ nl)%string.
Definition oneAndOne : string :=
  ("1" ++ nl ++ "0" ++ nl ++ "1" ++ nl ++ "0" ++ nl)%string.
Definition oneGapOne : string :=
  ("1" ++ nl ++ "0" ++ nl ++ nl ++ "1" ++ nl ++ "0" ++ nl)%string.
Definition oneBlankOne : string :=
  ("1" ++ nl ++ "0" ++ nl ++ " " ++ nl ++ "1" ++ nl ++ "0" ++ nl)%string.
Definition twoThenShortRow : string :=
  ("2" ++ nl ++ "1 2" ++ nl ++ "0" ++ nl)%string.

(** The first check that fails, in a list of checks taken in order. *)
Fixpoint firstSome {A : Type} (l : list (option A)) : option A :=
  match l with
  | [] => None
  | Some a :: _ => Some a
  | None :: r => firstSome r
  end.

(** What the check of one matrix cell reports: nothing when the token
    converts to 0 or to 1. *)
Definition cellCheck (values : list string) (graphIndex i j : nat)
  : option Exception :=
  match nth_error values j with
  | Some tok =>
      let (weight, ok) := toInt tok in
      if negb ok
      then Some (BadMatrixToken tok (i + 1) (j + 1) (graphIndex + 1))
      else if (weight =? 0)%Z || (weight =? 1)%Z then None
      else Some (NotZeroOrOne weight (i + 1) (j + 1) (graphIndex + 1))
  | None => None
  end.

(** The checks of one row in scan order: its token count, then its cells
    from left to right. *)
Definition rowChecks (lines : list string) (currentLine : nat)
  (vertexCount : Z) (graphIndex i : nat) : list (option Exception) :=
  match nth_error lines (currentLine + i) with
  | Some line =>
      let values := split SP line in
      (if (Z.of_nat (length values) =? vertexCount)%Z then None
       else Some (BadRowLength (i + 1) (graphIndex + 1) (length values)
                               vertexCount))
      :: map (cellCheck values graphIndex i) (seq 0 (Z.to_nat vertexCount))
  | None => []
  end.

(** The checks of a whole matrix: its rows from top to bottom. *)
Definition matrixChecks (lines : list string) (currentLine : nat)
  (vertexCount : Z) (graphIndex : nat) : list (option Exception) :=
  flat_map (rowChecks lines currentLine vertexCount graphIndex)
           (seq 0 (Z.to_nat vertexCount)).

(** The token at column [j] converts to 1. *)
Definition tokenIsOne (values : list string) (j : nat) : bool :=
  match nth_error values j with
  | Some tok => let (weight, ok) := toInt tok in ok && (weight =? 1)%Z
  | None => false
  end.

(** Matrix cell (i, j) of the block whose count line is at [startLine]
    equals 1. *)
Definition cellOne (lines : list string) (startLine i j : nat) : bool :=
  match nth_error lines (startLine + 1 + i) with
  | Some line => tokenIsOne (split SP line) j
  | None => false
  end.

(** A token that converts to 0 or to 1. *)
Definition cellValid (tok : string) : bool :=
  let (weight, ok) := toInt tok in
  ok && ((weight =? 0)%Z || (weight =? 1)%Z).

(** Row [i] of a matrix is present, has [vertexCount] tokens and every
    token converts to 0 or to 1. *)
Definition rowValid (lines : list string) (currentLine : nat)
  (vertexCount : Z) (i : nat) : bool :=
  match nth_error lines (currentLine + i) with
  | Some line =>
      let values := split SP line in
      (Z.of_nat (length values) =? vertexCount)%Z && forallb cellValid values
  | None => false
  end.

(** The line at [startLine] converts to the positive integer [vertexCount]. *)
Definition countLineIs (lines : list string) (startLine : nat)
  (vertexCount : Z) : bool :=
  match nth_error lines startLine with
  | Some line =>
      let (v, ok) := toInt line in ok && (v =? vertexCount)%Z && (0 <? v)%Z
  | None => false
  end.

(** The [vertexCount] matrix rows after the count line at [startLine] are
    present. *)
Definition rowsPresent (lines : list string) (startLine : nat)
  (vertexCount : Z) : bool :=
  (Z.of_nat (startLine + 1) + vertexCount <=? Z.of_nat (length lines))%Z.

(** A well-formed block: a count line and that many valid rows. *)
Definition validBlock (lines : list string) (startLine : nat)
  (vertexCount : Z) : bool :=
  countLineIs lines startLine vertexCount
  && forallb (rowValid lines (startLine + 1) vertexCount)
             (seq 0 (Z.to_nat vertexCount)).

(** The line list fits a [QStringList], whose size is an [int]. *)
Definition fitsInt (lines : list string) : Prop :=
  (Z.of_nat (length lines) <= INT_MAX)%Z.

(** Where [parseData] starts block [b] (0 or 1): block 1 starts where the
    successful parse of block 0 ended. *)
Definition blockStart (lines : list string) (b : nat) : option nat :=
  match b with
  | 0 => if length lines <? 2 then None else Some 0
  | 1 => if length lines <? 2 then None
         else match parseSingleGraph lines 0 0 with
              | Return (_, nextLine) => Some nextLine
              | _ => None
              end
  | _ => None
  end.

(** The edges of a 0/1 matrix, row by row. *)
Definition rowEdges (cell : nat -> nat -> bool) (N i : nat) : list Edge :=
  flat_map (fun j => if cell i j then [mkEdge i j] else []) (seq 0 N).

Definition matrixEdges (cell : nat -> nat -> bool) (N : nat) : list Edge :=
  flat_map (rowEdges cell N) (seq 0 N).

(** The directed graph with vertices 0 .. N-1, labelled with their index,
    and the edges [es], each edge filed under its origin and its target. *)
Definition graphOfEdges (id : string) (N : nat) (es : list Edge) : Graph :=
  mkGraph DIRECTED id
    (map (fun k => mkVertex (number k)
                     (filter (fun e => origin e =? k) es)
                     (filter (fun e => target e =? k) es))
         (seq 0 N))
    es.

(** Graph [g] represents the N x N matrix [cell]: N vertices labelled by
    index in index order, an edge (i, j) exactly for the cells equal to 1,
    each edge once, outgoing on its origin and incoming on its target. *)
Definition represents (cell : nat -> nat -> bool) (N : nat) (g : Graph)
  : Prop :=
  length (vertices g) = N
  /\ (forall k, k < N ->
        exists v, nth_error (vertices g) k = Some v
                  /\ vertexID v = number k
                  /\ edgesOut v = filter (fun e => origin e =? k) (edges g)
                  /\ edgesIn v = filter (fun e => target e =? k) (edges g))
  /\ NoDup (edges g)
  /\ (forall i j, In (mkEdge i j) (edges g)
                  <-> (i < N /\ j < N /\ cell i j = true)).

(** The state a row leaves behind when all its checks pass. *)
Definition cellStep (values : list string) (i j : nat) (g : Graph) : Graph :=
  if tokenIsOne values j then connect i j g else g.

Definition rowStep (lines : list string) (currentLine : nat) (N i : nat)
  (g : Graph) : Graph :=
  match nth_error lines (currentLine + i) with
  | Some line =>
      fold_left (fun g j => cellStep (split SP line) i j g) (seq 0 N) g
  | None => g
  end.

(** Texts: no newline inside; only white space inside. *)
Fixpoint noLF (s : string) : bool :=
  match s with
  | EmptyString => true
  | String c r => negb (Ascii.eqb c LF) && noLF r
  end.

Fixpoint allSpace (s : string) : bool :=
  match s with
  | EmptyString => true
  | String c r => isSpace c && allSpace r
  end.

(** A line that is not empty and holds only white space. *)
Definition blankLine (w : string) : bool :=
  negb (isEmpty w) && noLF w && allSpace w.

(** The 1-indexed matrix row an exception names, if it names one. *)
Definition namedRow (e : Exception) : option nat :=
  match e with
  | BadRowLength row _ _ _ => Some row
  | BadMatrixToken _ row _ _ => Some row
  | NotZeroOrOne _ row _ _ => Some row
  | _ => None
  end.

(** A call fails with an error of kind [k]. *)
Definition failsWith {A : Type} (r : result A) (k : ErrorKind) : Prop :=
  exists e, r = Throw e /\ kind e = k.

(** More inputs: one graph only; a count that overflows the cursor. *)
Definition oneGraphOnly : string := ("1" ++ nl ++ "0" ++ nl)%string.
Definition hugeCount : string := ("2147483647" ++ nl ++ "0" ++ nl)%string.
Definition cutShort : string :=
  ("1" ++ nl ++ "0" ++ nl ++ "3" ++ nl ++ "0 0 0" ++ nl)%string.


(** The carriage return, and the two line endings a text file may use. *)
Definition CR : ascii := ascii_of_nat 13.
Definition crlf : string := String CR (String LF EmptyString).

(** A text file written from a list of lines, each followed by [eol]. *)
Fixpoint joinLines (eol : string) (ls : list string) : string :=
  match ls with
  | [] => EmptyString
  | l :: rest => (l ++ eol ++ joinLines eol rest)%string
  end.

(** Character [c] does not occur in the text. *)
Fixpoint noChar (c : ascii) (s : string) : bool :=
  match s with
  | EmptyString => true
  | String x r => negb (Ascii.eqb x c) && noChar c r
  end.

(** The tabulator, and a matrix written with it. *)
Definition TAB : ascii := ascii_of_nat 9.
Definition tabbedMatrix : string :=
  ("2" ++ nl ++ String "0" (String TAB "1") ++ nl
       ++ String "1" (String TAB "0") ++ nl ++ "1" ++ nl ++ "0" ++ nl)%string.

(** The outcome of a block parser run [d] lines further down. *)
Definition shiftNext (d : nat) (r : result (Graph * nat))
  : result (Graph * nat) :=
  match r with
  | Return (g, nextLine) => Return (g, d + nextLine)
  | Throw e => Throw e
  | Undefined => Undefined
  end.


(** Out-degrees and in-degrees of a graph, summed over its vertices. *)
Definition outDegreeSum (g : Graph) : nat :=
  list_sum (map (fun v => length (edgesOut v)) (vertices g)).

Definition inDegreeSum (g : Graph) : nat :=
  list_sum (map (fun v => length (edgesIn v)) (vertices g)).

(* ===================================================================== *)
(** ** Loops and checks *)
(* ===================================================================== *)

Section Loops.

Context {S : Type}.
Variable body : nat -> S -> result S.

Lemma forLoop_succ_r (first count : nat) (s : S) :
  forLoop body first (count + 1) s =
  (s' <- forLoop body first count s ;; body (first + count) s').
Proof.
  revert first s. induction count as [|n IH]; intros first s; simpl.
  - rewrite Nat.add_0_r. destruct (body first s); reflexivity.
  - destruct (body first s) as [s1| |]; simpl; try reflexivity.
    rewrite IH. replace (Datatypes.S first + n) with (first + Datatypes.S n) by lia.
    reflexivity.
Qed.


(** A loop whose body is described, at every index, by a list of checks
    and a state update, reports the first failing check of the indices
    taken in order, and otherwise folds the updates. *)
Lemma forLoop_scan (checks : nat -> list (option Exception))
  (step : nat -> S -> S) (first count : nat) (s : S) :
  (forall k st, first <= k < first + count ->
     body k st = match firstSome (checks k) with
                 | Some e => Throw e
                 | None => Return (step k st)
                 end) ->
  forLoop body first count s =
  match firstSome (flat_map checks (seq first count)) with
  | Some e => Throw e
  | None => Return (fold_left (fun st k => step k st) (seq first count) s)
  end.
Proof.
  revert first s. induction count as [|n IH]; intros first s Hbody; simpl.
  - reflexivity.
  - rewrite (Hbody first s) by lia.
    assert (Hsplit : forall (l1 l2 : list (option Exception)),
               firstSome (l1 ++ l2) =
               match firstSome l1 with Some e => Some e | None => firstSome l2 end).
    { induction l1 as [|[e|] l1 IHl]; intros l2; simpl; auto. }
    rewrite Hsplit. destruct (firstSome (checks first)) as [e|]; simpl.
    + reflexivity.
    + apply IH. intros k st Hk. apply Hbody. lia.
Qed.

End Loops.

Lemma forLoop_ext {S : Type} (body body' : nat -> S -> result S)
  (first count : nat) (s : S) :
  (forall k st, first <= k < first + count -> body k st = body' k st) ->
  forLoop body first count s = forLoop body' first count s.
Proof.
  revert first s. induction count as [|n IH]; intros first s H; simpl.
  - reflexivity.
  - rewrite (H first s) by lia. destruct (body' first s); simpl; auto.
    apply IH. intros k st Hk. apply H. lia.
Qed.

Lemma firstSome_app {A : Type} (l1 l2 : list (option A)) :
  firstSome (l1 ++ l2) =
  match firstSome l1 with Some e => Some e | None => firstSome l2 end.
Proof. induction l1 as [|[e|] l1 IH]; simpl; auto. Qed.

Lemma firstSome_None_iff {A : Type} (l : list (option A)) :
  firstSome l = None <-> forall x, In x l -> x = None.
Proof.
  induction l as [|[a|] l IH]; simpl.
  - split; [intros _ x []|reflexivity].
  - split; [discriminate|]. intros H. specialize (H (Some a) (or_introl eq_refl)).
    discriminate.
  - rewrite IH. split.
    + intros H x [<-|Hx]; auto.
    + intros H x Hx. apply H. right; exact Hx.
Qed.

Lemma firstSome_flat_map_None {A B : Type} (f : A -> list (option B)) (l : list A) :
  firstSome (flat_map f l) = None <-> forall a, In a l -> firstSome (f a) = None.
Proof.
  induction l as [|a l IH]; simpl.
  - split; [intros _ x []|reflexivity].
  - rewrite firstSome_app. destruct (firstSome (f a)) eqn:E.
    + split; [discriminate|]. intros H. rewrite (H a (or_introl eq_refl)) in E.
      discriminate.
    + rewrite IH. split.
      * intros H x [<-|Hx]; auto.
      * intros H x Hx. apply H. right; exact Hx.
Qed.

(** The first failing row: everything before it passes. *)
Lemma firstSome_flat_map_seq {B : Type} (f : nat -> list (option B))
  (n i : nat) (e : B) :
  i < n ->
  (forall k, k < i -> firstSome (f k) = None) ->
  firstSome (f i) = Some e ->
  firstSome (flat_map f (seq 0 n)) = Some e.
Proof.
  intros Hi Hbefore Hat.
  replace n with (i + (1 + (n - i - 1))) by lia.
  rewrite seq_app, flat_map_app, firstSome_app.
  assert (H0 : firstSome (flat_map f (seq 0 i)) = None).
  { apply firstSome_flat_map_None. intros a Ha. apply in_seq in Ha.
    apply Hbefore. lia. }
  rewrite H0. rewrite seq_app, flat_map_app, firstSome_app. simpl.
  rewrite app_nil_r, Hat. reflexivity.
Qed.

(* ===================================================================== *)
(** ** The graph under construction *)
(* ===================================================================== *)

Lemma alterAt_map_seq {A : Type} (f : A -> A) (F : nat -> A) (k first n : nat) :
  alterAt f k (map F (seq first n)) =
  map (fun m => if m =? first + k then f (F m) else F m) (seq first n).
Proof.
  revert k first. induction n as [|n IH]; intros k first; simpl.
  - reflexivity.
  - destruct k as [|k]; simpl.
    + rewrite Nat.add_0_r, Nat.eqb_refl. f_equal.
      apply map_ext_in. intros m Hm. apply in_seq in Hm.
      destruct (Nat.eqb_spec m first); [lia|reflexivity].
    + destruct (Nat.eqb_spec first (first + Datatypes.S k)); [lia|]. f_equal.
      rewrite IH. apply map_ext. intros m.
      replace (Datatypes.S first + k) with (first + Datatypes.S k) by lia.
      reflexivity.
Qed.

Lemma connect_graphOfEdges (id : string) (N i j : nat) (es : list Edge) :
  connect i j (graphOfEdges id N es) = graphOfEdges id N (es ++ [mkEdge i j]).
Proof.
  unfold connect, graphOfEdges, addEdgeToVertex, addEdge; simpl.
  f_equal. rewrite !alterAt_map_seq. apply map_ext. intros m. simpl.
  rewrite !filter_app. simpl.
  rewrite (Nat.eqb_sym i m), (Nat.eqb_sym j m).
  destruct (m =? j), (m =? i); simpl; rewrite ?app_nil_r; reflexivity.
Qed.

Lemma cellStep_fold (id : string) (N i : nat) (values : list string)
  (js : list nat) (es : list Edge) :
  fold_left (fun g j => cellStep values i j g) js (graphOfEdges id N es) =
  graphOfEdges id N
    (es ++ flat_map (fun j => if tokenIsOne values j then [mkEdge i j] else []) js).
Proof.
  revert es. induction js as [|j js IH]; intros es; simpl.
  - rewrite app_nil_r. reflexivity.
  - unfold cellStep at 2. destruct (tokenIsOne values j).
    + rewrite connect_graphOfEdges, IH, <- app_assoc. reflexivity.
    + rewrite IH. reflexivity.
Qed.

Lemma rowStep_graphOfEdges (id : string) (lines : list string)
  (startLine N i : nat) (es : list Edge) :
  rowStep lines (startLine + 1) N i (graphOfEdges id N es) =
  graphOfEdges id N (es ++ rowEdges (cellOne lines startLine) N i).
Proof.
  unfold rowStep, rowEdges, cellOne.
  destruct (nth_error lines (startLine + 1 + i)) as [line|].
  - apply cellStep_fold.
  - replace (flat_map (fun j : nat => if false then [mkEdge i j] else []) (seq 0 N))
      with (@nil Edge); [rewrite app_nil_r; reflexivity|].
    induction (seq 0 N); simpl; auto.
Qed.

Lemma rowStep_fold (id : string) (lines : list string) (startLine N : nat)
  (rows : list nat) (es : list Edge) :
  fold_left (fun g i => rowStep lines (startLine + 1) N i g) rows
            (graphOfEdges id N es) =
  graphOfEdges id N (es ++ flat_map (rowEdges (cellOne lines startLine) N) rows).
Proof.
  revert es. induction rows as [|i rows IH]; intros es; simpl.
  - rewrite app_nil_r. reflexivity.
  - rewrite rowStep_graphOfEdges, IH, <- app_assoc. reflexivity.
Qed.

Lemma addVertex_fold (id : string) (n : nat) :
  fold_left (fun g i => addVertex newVertex (number i) g) (seq 0 n)
            (setID id (newGraph DIRECTED)) =
  graphOfEdges id n [].
Proof.
  induction n as [|n IH].
  - reflexivity.
  - rewrite seq_S, fold_left_app, IH. cbn [fold_left].
    unfold addVertex, graphOfEdges. rewrite seq_S, map_app. reflexivity.
Qed.

Lemma addVertices_spec (id : string) (vertexCount : Z) :
  addVertices vertexCount (setID id (newGraph DIRECTED)) =
  Return (graphOfEdges id (Z.to_nat vertexCount) []).
Proof.
  unfold addVertices.
  rewrite (forLoop_scan _ (fun _ => [])
             (fun i g => addVertex newVertex (number i) g)).
  - assert (H : forall l : list nat,
               firstSome (flat_map (fun _ => @nil (option Exception)) l) = None).
    { induction l; simpl; auto. }
    rewrite H, addVertex_fold. reflexivity.
  - intros; reflexivity.
Qed.

(* ===================================================================== *)
(** ** One block: the checks in scan order *)
(* ===================================================================== *)

Lemma parseCell_scan (values : list string) (graphIndex i j : nat) (g : Graph) :
  j < length values ->
  parseCell values graphIndex i j g =
  match firstSome [cellCheck values graphIndex i j] with
  | Some e => Throw e
  | None => Return (cellStep values i j g)
  end.
Proof.
  intros Hj. unfold parseCell, cellCheck, cellStep, tokenIsOne, at_.
  destruct (nth_error values j) as [tok|] eqn:E.
  - simpl. destruct (toInt tok) as [w ok]. destruct ok; simpl.
    + destruct (Z.eqb_spec w 0) as [->|H0]; simpl; [reflexivity|].
      destruct (Z.eqb_spec w 1) as [->|H1]; simpl; reflexivity.
    + reflexivity.
  - apply nth_error_None in E. lia.
Qed.

Lemma flat_map_singleton {A B : Type} (f : A -> B) (l : list A) :
  flat_map (fun a => [f a]) l = map f l.
Proof. induction l; simpl; congruence. Qed.

Lemma parseRow_scan (lines : list string) (currentLine : nat) (vertexCount : Z)
  (graphIndex i : nat) (g : Graph) :
  currentLine + i < length lines ->
  parseRow lines currentLine vertexCount graphIndex i g =
  match firstSome (rowChecks lines currentLine vertexCount graphIndex i) with
  | Some e => Throw e
  | None => Return (rowStep lines currentLine (Z.to_nat vertexCount) i g)
  end.
Proof.
  intros Hi. unfold parseRow, rowChecks, rowStep, at_.
  destruct (nth_error lines (currentLine + i)) as [line|] eqn:E.
  - simpl. destruct (Z.eqb_spec (Z.of_nat (length (split SP line))) vertexCount)
      as [Hlen|Hlen]; simpl; [|reflexivity].
    rewrite (forLoop_scan _ (fun j => [cellCheck (split SP line) graphIndex i j])
               (cellStep (split SP line) i)).
    + rewrite flat_map_singleton. reflexivity.
    + intros k st Hk. apply parseCell_scan. lia.
  - apply nth_error_None in E. lia.
Qed.

(** The block parser, once the count line is accepted and the rows are
    there: the first failing check of the matrix, or the graph of the
    matrix and the next line. *)
Lemma parseSingleGraph_scan (lines : list string) (startLine graphIndex : nat)
  (vertexCount : Z) :
  (Z.of_nat (startLine + 1) + vertexCount <= INT_MAX)%Z ->
  countLineIs lines startLine vertexCount = true ->
  rowsPresent lines startLine vertexCount = true ->
  parseSingleGraph lines startLine graphIndex =
  match firstSome (matrixChecks lines (startLine + 1) vertexCount graphIndex) with
  | Some e => Throw e
  | None =>
      Return (graphOfEdges (String.append "graph_" (number graphIndex))
                (Z.to_nat vertexCount)
                (matrixEdges (cellOne lines startLine) (Z.to_nat vertexCount)),
              startLine + 1 + Z.to_nat vertexCount)
  end.
Proof.
  unfold countLineIs, rowsPresent, parseSingleGraph, at_.
  intros Hfit Hcount Hrows.
  destruct (nth_error lines startLine) as [countLine|] eqn:E; [|discriminate].
  assert (Hlt : startLine < length lines).
  { apply nth_error_Some. congruence. }
  destruct (Nat.leb_spec (length lines) startLine); [lia|]. simpl.
  destruct (toInt countLine) as [v ok].
  apply andb_prop in Hcount as [Hcount Hpos].
  apply andb_prop in Hcount as [Hok Hv].
  apply Z.eqb_eq in Hv. subst v ok. apply Z.ltb_lt in Hpos.
  apply Z.leb_le in Hrows. simpl.
  destruct (Z.leb_spec vertexCount 0); [lia|].
  destruct (Z.ltb_spec INT_MAX (Z.of_nat (startLine + 1) + vertexCount)); [lia|].
  destruct (Z.ltb_spec (Z.of_nat (length lines))
              (Z.of_nat (startLine + 1) + vertexCount)); [lia|].
  rewrite addVertices_spec. simpl.
  rewrite (forLoop_scan _
             (rowChecks lines (startLine + 1) vertexCount graphIndex)
             (rowStep lines (startLine + 1) (Z.to_nat vertexCount))).
  - fold (matrixChecks lines (startLine + 1) vertexCount graphIndex).
    destruct (firstSome _); simpl; [reflexivity|].
    rewrite rowStep_fold. reflexivity.
  - intros k st Hk. apply parseRow_scan. lia.
Qed.

Lemma rowsPresent_fits (lines : list string) (startLine : nat) (vertexCount : Z) :
  fitsInt lines ->
  rowsPresent lines startLine vertexCount = true ->
  (Z.of_nat (startLine + 1) + vertexCount <= INT_MAX)%Z.
Proof.
  unfold fitsInt, rowsPresent. intros Hfit Hrows. apply Z.leb_le in Hrows. lia.
Qed.

(** A block that returns had its count line accepted and its rows there. *)
Lemma parseSingleGraph_Return_header (lines : list string)
  (startLine graphIndex : nat) (r : Graph * nat) :
  parseSingleGraph lines startLine graphIndex = Return r ->
  exists vertexCount,
    countLineIs lines startLine vertexCount = true
    /\ rowsPresent lines startLine vertexCount = true
    /\ (Z.of_nat (startLine + 1) + vertexCount <= INT_MAX)%Z.
Proof.
  unfold parseSingleGraph, countLineIs, rowsPresent, at_.
  destruct (Nat.leb_spec (length lines) startLine); [discriminate|].
  destruct (nth_error lines startLine) as [countLine|]; [|discriminate].
  simpl. destruct (toInt countLine) as [v ok]. destruct ok; simpl; [|discriminate].
  destruct (Z.leb_spec v 0); [discriminate|].
  destruct (Z.ltb_spec INT_MAX (Z.of_nat (startLine + 1) + v)); [discriminate|].
  destruct (Z.ltb_spec (Z.of_nat (length lines)) (Z.of_nat (startLine + 1) + v));
    [discriminate|].
  intros _. exists v. rewrite Z.eqb_refl. simpl. repeat split.
  - apply Z.ltb_lt. lia.
  - apply Z.leb_le. lia.
  - lia.
Qed.

Lemma countLineIs_fun (lines : list string) (startLine : nat) (N M : Z) :
  countLineIs lines startLine N = true ->
  countLineIs lines startLine M = true -> N = M.
Proof.
  unfold countLineIs. destruct (nth_error lines startLine) as [l|]; [|discriminate].
  destruct (toInt l) as [v ok]. intros H1 H2.
  apply andb_prop in H1 as [H1 _]. apply andb_prop in H1 as [_ H1].
  apply andb_prop in H2 as [H2 _]. apply andb_prop in H2 as [_ H2].
  apply Z.eqb_eq in H1, H2. congruence.
Qed.

(** What a returning block returns. *)
Lemma parseSingleGraph_Return_inv (lines : list string)
  (startLine graphIndex : nat) (g : Graph) (nextLine : nat) :
  parseSingleGraph lines startLine graphIndex = Return (g, nextLine) ->
  exists vertexCount,
    countLineIs lines startLine vertexCount = true
    /\ rowsPresent lines startLine vertexCount = true
    /\ (Z.of_nat (startLine + 1) + vertexCount <= INT_MAX)%Z
    /\ firstSome (matrixChecks lines (startLine + 1) vertexCount graphIndex) = None
    /\ g = graphOfEdges (String.append "graph_" (number graphIndex))
             (Z.to_nat vertexCount)
             (matrixEdges (cellOne lines startLine) (Z.to_nat vertexCount))
    /\ nextLine = startLine + 1 + Z.to_nat vertexCount.
Proof.
  intros H. destruct (parseSingleGraph_Return_header _ _ _ _ H) as (N & Hc & Hr & Ho).
  exists N. rewrite (parseSingleGraph_scan _ _ _ N Ho Hc Hr) in H.
  destruct (firstSome _); [discriminate|]. inversion H. auto 10.
Qed.

Lemma parseSingleGraph_end (lines : list string) (startLine graphIndex : nat) :
  length lines <= startLine ->
  parseSingleGraph lines startLine graphIndex = Throw (UnexpectedEnd (graphIndex + 1)).
Proof.
  intros H. unfold parseSingleGraph.
  destruct (Nat.leb_spec (length lines) startLine); [reflexivity|lia].
Qed.

(** The count line is checked before anything else of the block. *)
Lemma parseSingleGraph_badCount (lines : list string)
  (startLine graphIndex : nat) (countLine : string) :
  nth_error lines startLine = Some countLine ->
  snd (toInt countLine) = false \/ (fst (toInt countLine) <= 0)%Z ->
  parseSingleGraph lines startLine graphIndex =
  Throw (BadVertexCount countLine (graphIndex + 1)).
Proof.
  intros E H. unfold parseSingleGraph, at_.
  assert (Hlt : startLine < length lines) by (apply nth_error_Some; congruence).
  destruct (Nat.leb_spec (length lines) startLine); [lia|].
  rewrite E. simpl. destruct (toInt countLine) as [v ok]. simpl in H.
  destruct H as [->|H]; simpl; [reflexivity|].
  destruct (Z.leb_spec v 0); [|lia]. rewrite orb_true_r. reflexivity.
Qed.

Lemma parseSingleGraph_notEnough (lines : list string)
  (startLine graphIndex : nat) (vertexCount : Z) :
  countLineIs lines startLine vertexCount = true ->
  (Z.of_nat (startLine + 1) + vertexCount <= INT_MAX)%Z ->
  rowsPresent lines startLine vertexCount = false ->
  parseSingleGraph lines startLine graphIndex =
  Throw (NotEnoughLines (graphIndex + 1)).
Proof.
  unfold countLineIs, rowsPresent, parseSingleGraph, at_.
  intros Hcount Ho Hrows.
  destruct (nth_error lines startLine) as [countLine|] eqn:E; [|discriminate].
  assert (Hlt : startLine < length lines) by (apply nth_error_Some; congruence).
  destruct (Nat.leb_spec (length lines) startLine); [lia|]. simpl.
  destruct (toInt countLine) as [v ok].
  apply andb_prop in Hcount as [Hcount Hpos].
  apply andb_prop in Hcount as [Hok Hv].
  apply Z.eqb_eq in Hv. subst v ok. apply Z.ltb_lt in Hpos.
  apply Z.leb_gt in Hrows. simpl.
  destruct (Z.leb_spec vertexCount 0); [lia|].
  destruct (Z.ltb_spec INT_MAX (Z.of_nat (startLine + 1) + vertexCount)); [lia|].
  destruct (Z.ltb_spec (Z.of_nat (length lines))
              (Z.of_nat (startLine + 1) + vertexCount)); [reflexivity|lia].
Qed.

(* ===================================================================== *)
(** ** Valid rows and their checks *)
(* ===================================================================== *)

Lemma cellCheck_valid (values : list string) (graphIndex i j : nat) (tok : string) :
  nth_error values j = Some tok ->
  (cellCheck values graphIndex i j = None <-> cellValid tok = true).
Proof.
  intros E. unfold cellCheck, cellValid. rewrite E.
  destruct (toInt tok) as [w ok]. destruct ok; simpl.
  - destruct ((w =? 0)%Z || (w =? 1)%Z); split; congruence.
  - split; discriminate.
Qed.

Lemma rowChecks_valid (lines : list string) (currentLine : nat) (N : Z)
  (graphIndex i : nat) :
  currentLine + i < length lines ->
  (firstSome (rowChecks lines currentLine N graphIndex i) = None
   <-> rowValid lines currentLine N i = true).
Proof.
  intros Hi. unfold rowChecks, rowValid.
  destruct (nth_error lines (currentLine + i)) as [line|] eqn:E.
  2:{ apply nth_error_None in E. lia. }
  simpl. set (values := split SP line).
  destruct (Z.eqb_spec (Z.of_nat (length values)) N) as [Hlen|Hlen]; simpl.
  2:{ split; discriminate. }
  rewrite firstSome_None_iff, forallb_forall. split.
  - intros H tok Htok. destruct (In_nth_error _ _ Htok) as [j Hj].
    apply (cellCheck_valid values graphIndex i j tok Hj). apply H.
    apply in_map, in_seq.
    assert (j < length values) by (apply nth_error_Some; congruence). lia.
  - intros H x Hx. apply in_map_iff in Hx as (j & <- & Hj). apply in_seq in Hj.
    destruct (nth_error values j) as [tok|] eqn:Ej.
    + apply (cellCheck_valid values graphIndex i j tok Ej). apply H.
      eapply nth_error_In; eauto.
    + unfold cellCheck. rewrite Ej. reflexivity.
Qed.

Lemma matrixChecks_valid (lines : list string) (startLine : nat) (N : Z)
  (graphIndex : nat) :
  rowsPresent lines startLine N = true ->
  (firstSome (matrixChecks lines (startLine + 1) N graphIndex) = None
   <-> forallb (rowValid lines (startLine + 1) N) (seq 0 (Z.to_nat N)) = true).
Proof.
  unfold rowsPresent, matrixChecks. intros Hrows. apply Z.leb_le in Hrows.
  rewrite firstSome_flat_map_None, forallb_forall.
  split; intros H i Hi; specialize (H i Hi); apply in_seq in Hi;
    apply (rowChecks_valid lines (startLine + 1) N graphIndex i); auto; lia.
Qed.

(* ===================================================================== *)
(** ** The graph of a matrix *)
(* ===================================================================== *)

Lemma NoDup_flat_map_keyed {A B : Type} (key : B -> A) (f : A -> list B)
  (l : list A) :
  NoDup l ->
  (forall a, In a l -> NoDup (f a)) ->
  (forall a b, In a l -> In b (f a) -> key b = a) ->
  NoDup (flat_map f l).
Proof.
  induction 1 as [|a l Hnotin Hnd IH]; intros Hf Hkey; simpl.
  - constructor.
  - apply NoDup_app.
    + apply Hf. left; reflexivity.
    + apply IH; intros; [apply Hf|eapply Hkey]; simpl; eauto.
    + intros b Hb Hb'. apply in_flat_map in Hb' as (a' & Ha' & Hb').
      apply (Hkey a b (or_introl eq_refl)) in Hb.
      apply (Hkey a' b (or_intror Ha')) in Hb'. congruence.
Qed.

Lemma in_rowEdges (cell : nat -> nat -> bool) (N i : nat) (e : Edge) :
  In e (rowEdges cell N i) <->
  origin e = i /\ target e < N /\ cell i (target e) = true.
Proof.
  unfold rowEdges. rewrite in_flat_map. split.
  - intros (j & Hj & He). apply in_seq in Hj.
    destruct (cell i j) eqn:C; [|destruct He].
    destruct He as [<-|[]]. simpl. repeat split; auto; lia.
  - intros (Ho & Ht & Hc). exists (target e). split; [apply in_seq; lia|].
    rewrite Hc. left. destruct e; simpl in *; congruence.
Qed.

Lemma in_matrixEdges (cell : nat -> nat -> bool) (N : nat) (e : Edge) :
  In e (matrixEdges cell N) <->
  origin e < N /\ target e < N /\ cell (origin e) (target e) = true.
Proof.
  unfold matrixEdges. rewrite in_flat_map. split.
  - intros (i & Hi & He). apply in_seq in Hi. apply in_rowEdges in He as (<- & ? & ?).
    repeat split; auto; lia.
  - intros (Ho & Ht & Hc). exists (origin e). split; [apply in_seq; lia|].
    apply in_rowEdges. auto.
Qed.

Lemma NoDup_matrixEdges (cell : nat -> nat -> bool) (N : nat) :
  NoDup (matrixEdges cell N).
Proof.
  unfold matrixEdges. apply (NoDup_flat_map_keyed origin).
  - apply seq_NoDup.
  - intros i _. unfold rowEdges. apply (NoDup_flat_map_keyed target).
    + apply seq_NoDup.
    + intros j _. destruct (cell i j); repeat constructor. intros [].
    + intros j e _ He. destruct (cell i j); [|destruct He].
      destruct He as [<-|[]]. reflexivity.
  - intros i e _ He. apply in_rowEdges in He. tauto.
Qed.

Lemma graphOfEdges_represents (id : string) (cell : nat -> nat -> bool) (N : nat) :
  represents cell N (graphOfEdges id N (matrixEdges cell N)).
Proof.
  unfold represents, graphOfEdges; simpl.
  split; [|split; [|split]].
  - rewrite length_map, length_seq. reflexivity.
  - intros k Hk. eexists. split.
    + rewrite nth_error_map, nth_error_seq.
      destruct (Nat.ltb_spec k N); [|lia]. simpl. reflexivity.
    + simpl. auto.
  - apply NoDup_matrixEdges.
  - intros i j. rewrite in_matrixEdges. simpl. tauto.
Qed.

(* ===================================================================== *)
(** ** Splitting a text into lines *)
(* ===================================================================== *)

Lemma splitKeep_not_nil (sep : ascii) (s : string) : splitKeep sep s <> [].
Proof.
  destruct s as [|c r]; simpl; [discriminate|].
  destruct (Ascii.eqb c sep); [discriminate|].
  destruct (splitKeep sep r); discriminate.
Qed.

Lemma splitKeep_app (sep : ascii) (a b : string) :
  splitKeep sep (a ++ String sep b) = splitKeep sep a ++ splitKeep sep b.
Proof.
  induction a as [|c r IH]; simpl.
  - rewrite Ascii.eqb_refl. reflexivity.
  - destruct (Ascii.eqb c sep).
    + rewrite IH. reflexivity.
    + rewrite IH. pose proof (splitKeep_not_nil sep r) as Hne.
      destruct (splitKeep sep r) as [|p ps]; [congruence|]. reflexivity.
Qed.

Lemma split_app (sep : ascii) (a b : string) :
  split sep (a ++ String sep b) = split sep a ++ split sep b.
Proof. unfold split. rewrite splitKeep_app, filter_app. reflexivity. Qed.

Lemma split_leading_sep (sep : ascii) (b : string) :
  split sep (String sep b) = split sep b.
Proof. unfold split. simpl. rewrite Ascii.eqb_refl. reflexivity. Qed.

Lemma splitKeep_noLF (s : string) : noLF s = true -> splitKeep LF s = [s].
Proof.
  induction s as [|c r IH]; simpl; [reflexivity|].
  intros H. apply andb_prop in H as [Hc Hr].
  destruct (Ascii.eqb c LF); [discriminate|]. rewrite (IH Hr). reflexivity.
Qed.

Lemma splitKeep_allSpace (sep : ascii) (s : string) :
  allSpace s = true -> forall p, In p (splitKeep sep s) -> allSpace p = true.
Proof.
  induction s as [|c r IH]; simpl.
  - intros _ p [<-|[]]. reflexivity.
  - intros H. apply andb_prop in H as [Hc Hr]. specialize (IH Hr).
    destruct (Ascii.eqb c sep).
    + intros p [<-|Hp]; [reflexivity|auto].
    + pose proof (splitKeep_not_nil sep r) as Hne.
      destruct (splitKeep sep r) as [|q qs]; [congruence|].
      intros p [<-|Hp].
      * simpl. rewrite Hc. apply IH. left; reflexivity.
      * apply IH. right; exact Hp.
Qed.

Lemma trimLeft_allSpace (s : string) : allSpace s = true -> trimLeft s = EmptyString.
Proof.
  induction s as [|c r IH]; simpl; [reflexivity|].
  intros H. apply andb_prop in H as [Hc Hr]. rewrite Hc. auto.
Qed.

Lemma trimmed_allSpace (s : string) : allSpace s = true -> trimmed s = EmptyString.
Proof. intros H. unfold trimmed. rewrite trimLeft_allSpace; auto. Qed.

(** The trailing-blank loop on a concatenation. *)
Lemma removeLastWhileEmpty_rev_app (X Y : list string) :
  removeLastWhileEmpty_rev (X ++ Y) =
  match removeLastWhileEmpty_rev X with
  | [] => removeLastWhileEmpty_rev Y
  | r => r ++ Y
  end.
Proof.
  induction X as [|x X IH]; simpl; [reflexivity|].
  destruct (isEmpty x); [exact IH|reflexivity].
Qed.

Lemma removeLastWhileEmpty_app (A B : list string) :
  removeLastWhileEmpty (A ++ B) =
  match removeLastWhileEmpty B with
  | [] => removeLastWhileEmpty A
  | _ => A ++ removeLastWhileEmpty B
  end.
Proof.
  unfold removeLastWhileEmpty.
  rewrite rev_app_distr, removeLastWhileEmpty_rev_app.
  destruct (removeLastWhileEmpty_rev (rev B)) as [|x r] eqn:E; simpl.
  - reflexivity.
  - rewrite rev_app_distr, rev_involutive. simpl.
    destruct (rev r ++ [x]) eqn:E'.
    + apply app_eq_nil in E' as [_ E']. discriminate.
    + rewrite <- E', app_assoc. reflexivity.
Qed.

(** What the loop removes is a tail of empty lines. *)
Lemma removeLastWhileEmpty_rev_suffix (X : list string) :
  exists T, X = T ++ removeLastWhileEmpty_rev X
            /\ forall x, In x T -> x = EmptyString.
Proof.
  induction X as [|x X (T & HT & Hall)]; simpl.
  - exists []. split; [reflexivity|intros ? []].
  - destruct x as [|c r]; simpl.
    + exists (EmptyString :: T). split; [simpl; congruence|].
      intros y [<-|Hy]; auto.
    + exists []. split; [reflexivity|intros ? []].
Qed.

Lemma removeLastWhileEmpty_prefix (A : list string) :
  exists T, A = removeLastWhileEmpty A ++ T
            /\ forall x, In x T -> x = EmptyString.
Proof.
  unfold removeLastWhileEmpty.
  destruct (removeLastWhileEmpty_rev_suffix (rev A)) as (T & HT & Hall).
  exists (rev T). split.
  - rewrite <- rev_app_distr, <- HT, rev_involutive. reflexivity.
  - intros x Hx. apply Hall. apply in_rev. exact Hx.
Qed.

Lemma removeLastWhileEmpty_all_empty (B : list string) :
  (forall x, In x B -> x = EmptyString) -> removeLastWhileEmpty B = [].
Proof.
  intros H. unfold removeLastWhileEmpty.
  assert (E : removeLastWhileEmpty_rev (rev B) = []).
  { assert (H' : forall x, In x (rev B) -> x = EmptyString).
    { intros x Hx. apply H. apply in_rev. exact Hx. }
    induction (rev B) as [|x X IH]; simpl; [reflexivity|].
    rewrite (H' x (or_introl eq_refl)). simpl. apply IH.
    intros y Hy. apply H'. right; exact Hy. }
  rewrite E. reflexivity.
Qed.

Lemma removeLastWhileEmpty_length (A : list string) :
  length (removeLastWhileEmpty A) <= length A.
Proof.
  destruct (removeLastWhileEmpty_prefix A) as (T & HT & _).
  rewrite HT at 2. rewrite length_app. lia.
Qed.

Lemma append_assoc (a b c : string) : ((a ++ b) ++ c)%string = (a ++ (b ++ c))%string.
Proof. induction a as [|x a IH]; simpl; congruence. Qed.

Lemma split_length (sep : ascii) (s : string) :
  length (split sep s) <= String.length s.
Proof.
  unfold split. induction s as [|c r IH]; simpl; [lia|].
  destruct (Ascii.eqb c sep); simpl; [lia|].
  pose proof (splitKeep_not_nil sep r) as Hne.
  destruct (splitKeep sep r) as [|p ps]; [congruence|]. simpl in *.
  destruct (isEmpty p); simpl in *; lia.
Qed.

(** A text that fits a [QString] gives a line list that fits a
    [QStringList]. *)
Lemma fitsInt_of_text (data : string) :
  (Z.of_nat (String.length data) <= INT_MAX)%Z -> fitsInt (trimmedLines data).
Proof.
  unfold fitsInt, trimmedLines. intros H.
  pose proof (removeLastWhileEmpty_length (map trimmed (split LF data))) as H1.
  rewrite length_map in H1. pose proof (split_length LF data) as H2. lia.
Qed.

(** The line stream of a text that continues after a newline. *)
Lemma trimmedLines_app (a b : string) :
  trimmedLines (a ++ nl ++ b) =
  removeLastWhileEmpty (map trimmed (split LF a) ++ map trimmed (split LF b)).
Proof.
  unfold trimmedLines, nl. simpl. rewrite split_app, map_app. reflexivity.
Qed.

(* ===================================================================== *)
(** ** A block reads only its own lines *)
(* ===================================================================== *)

Lemma flat_map_ext_in {A B : Type} (f g : A -> list B) (l : list A) :
  (forall a, In a l -> f a = g a) -> flat_map f l = flat_map g l.
Proof.
  induction l as [|a l IH]; simpl; intros H; [reflexivity|].
  rewrite (H a (or_introl eq_refl)), IH; auto.
Qed.

Section Agree.

Variables lines lines' : list string.
Variable limit : nat.
Hypothesis agree : forall k, k < limit -> nth_error lines' k = nth_error lines k.

Lemma countLineIs_agree (startLine : nat) (N : Z) :
  startLine < limit ->
  countLineIs lines' startLine N = countLineIs lines startLine N.
Proof. intros H. unfold countLineIs. rewrite agree; auto. Qed.

Lemma rowChecks_agree (startLine : nat) (N : Z) (graphIndex i : nat) :
  startLine + 1 + i < limit ->
  rowChecks lines' (startLine + 1) N graphIndex i =
  rowChecks lines (startLine + 1) N graphIndex i.
Proof. intros H. unfold rowChecks. rewrite agree; auto. Qed.

Lemma rowValid_agree (startLine : nat) (N : Z) (i : nat) :
  startLine + 1 + i < limit ->
  rowValid lines' (startLine + 1) N i = rowValid lines (startLine + 1) N i.
Proof. intros H. unfold rowValid. rewrite agree; auto. Qed.

Lemma matrixChecks_agree (startLine : nat) (N : Z) (graphIndex rows : nat) :
  startLine + 1 + rows <= limit ->
  flat_map (rowChecks lines' (startLine + 1) N graphIndex) (seq 0 rows) =
  flat_map (rowChecks lines (startLine + 1) N graphIndex) (seq 0 rows).
Proof.
  intros H. apply flat_map_ext_in. intros i Hi. apply in_seq in Hi.
  apply rowChecks_agree. lia.
Qed.

Lemma matrixEdges_agree (startLine N : nat) :
  startLine + 1 + N <= limit ->
  matrixEdges (cellOne lines' startLine) N = matrixEdges (cellOne lines startLine) N.
Proof.
  intros H. unfold matrixEdges. apply flat_map_ext_in. intros i Hi.
  apply in_seq in Hi. unfold rowEdges. apply flat_map_ext_in. intros j _.
  unfold cellOne. rewrite agree by lia. reflexivity.
Qed.

Lemma rowsPresent_agree (startLine : nat) (N : Z) :
  (0 < N)%Z -> startLine + 1 + Z.to_nat N <= limit ->
  rowsPresent lines startLine N = true ->
  rowsPresent lines' startLine N = true.
Proof.
  unfold rowsPresent. intros Hpos Hlim H. apply Z.leb_le in H. apply Z.leb_le.
  assert (Hlast : nth_error lines' (startLine + Z.to_nat N) <> None).
  { rewrite agree by lia. apply nth_error_Some. lia. }
  apply nth_error_Some in Hlast. lia.
Qed.

End Agree.

Lemma countLineIs_pos (lines : list string) (startLine : nat) (N : Z) :
  countLineIs lines startLine N = true -> (0 < N)%Z.
Proof.
  unfold countLineIs. destruct (nth_error lines startLine) as [l|]; [|discriminate].
  destruct (toInt l) as [v ok]. intros H.
  apply andb_prop in H as [H Hpos]. apply andb_prop in H as [_ Hv].
  apply Z.eqb_eq in Hv. apply Z.ltb_lt in Hpos. lia.
Qed.

(** A returning block returns the same on any line list that has the same
    lines up to the block's end. *)
Lemma parseSingleGraph_agree (lines lines' : list string)
  (startLine graphIndex : nat) (g : Graph) (nextLine : nat) :
  parseSingleGraph lines startLine graphIndex = Return (g, nextLine) ->
  (forall k, k < nextLine -> nth_error lines' k = nth_error lines k) ->
  parseSingleGraph lines' startLine graphIndex = Return (g, nextLine).
Proof.
  intros H Hagree.
  apply parseSingleGraph_Return_inv in H
    as (N & Hc & Hr & Ho & Hchecks & -> & ->).
  pose proof (countLineIs_pos _ _ _ Hc) as Hpos.
  rewrite (parseSingleGraph_scan lines' startLine graphIndex N Ho).
  - unfold matrixChecks in *.
    rewrite (matrixChecks_agree lines lines' _ Hagree) by lia.
    rewrite Hchecks.
    rewrite (matrixEdges_agree lines lines' _ Hagree) by lia. reflexivity.
  - rewrite (countLineIs_agree lines lines' _ Hagree) by lia. exact Hc.
  - apply (rowsPresent_agree lines lines' _ Hagree); auto.
Qed.

(* ===================================================================== *)
(** ** The two blocks *)
(* ===================================================================== *)

Lemma parseLines_short (lines : list string) :
  length lines < 2 -> parseLines lines = Throw TooFewLines.
Proof.
  intros H. unfold parseLines. destruct (Nat.ltb_spec (length lines) 2); [reflexivity|lia].
Qed.

Lemma parseLines_long (lines : list string) :
  2 <= length lines ->
  parseLines lines =
  (first <- parseSingleGraph lines 0 0 ;;
   second <- parseSingleGraph lines (snd first) 1 ;;
   Return (fst first, fst second)).
Proof.
  intros H. unfold parseLines. destruct (Nat.ltb_spec (length lines) 2); [lia|reflexivity].
Qed.

(** An exception of either block is the exception of the parse. *)
Lemma parseLines_block_Throw (lines : list string) (b startLine : nat)
  (e : Exception) :
  blockStart lines b = Some startLine ->
  parseSingleGraph lines startLine b = Throw e ->
  parseLines lines = Throw e.
Proof.
  unfold blockStart. intros Hstart Hthrow.
  destruct b as [|[|b]]; [| |discriminate];
    destruct (Nat.ltb_spec (length lines) 2); try discriminate;
    rewrite parseLines_long by assumption.
  - inversion Hstart; subst. rewrite Hthrow. reflexivity.
  - destruct (parseSingleGraph lines 0 0) as [[g1 n1]| |]; try discriminate.
    inversion Hstart; subst. simpl. rewrite Hthrow. reflexivity.
Qed.

Lemma parseLines_Return_inv (lines : list string) (g1 g2 : Graph) :
  parseLines lines = Return (g1, g2) ->
  2 <= length lines
  /\ exists next1 next2,
       parseSingleGraph lines 0 0 = Return (g1, next1)
       /\ parseSingleGraph lines next1 1 = Return (g2, next2).
Proof.
  unfold parseLines. destruct (Nat.ltb_spec (length lines) 2); [discriminate|].
  destruct (parseSingleGraph lines 0 0) as [[h1 n1]| |]; simpl; try discriminate.
  destruct (parseSingleGraph lines n1 1) as [[h2 n2]| |] eqn:E2; simpl;
    try discriminate.
  intros Hret. inversion Hret; subst. split; [assumption|]. eauto.
Qed.

Lemma parseLines_Return_intro (lines : list string) (g1 g2 : Graph)
  (next1 next2 : nat) :
  parseSingleGraph lines 0 0 = Return (g1, next1) ->
  parseSingleGraph lines next1 1 = Return (g2, next2) ->
  parseLines lines = Return (g1, g2).
Proof.
  intros H1 H2.
  assert (Hlen : 2 <= length lines).
  { apply parseSingleGraph_Return_inv in H1 as (N & Hc & Hr & _).
    apply countLineIs_pos in Hc. unfold rowsPresent in Hr. apply Z.leb_le in Hr. lia. }
  rewrite parseLines_long by assumption. rewrite H1. simpl. rewrite H2. reflexivity.
Qed.

Lemma parseSingleGraph_next_le (lines : list string) (startLine b : nat)
  (g : Graph) (nextLine : nat) :
  parseSingleGraph lines startLine b = Return (g, nextLine) ->
  startLine < nextLine <= length lines.
Proof.
  intros H. apply parseSingleGraph_Return_inv in H as (N & Hc & Hr & _ & _ & _ & ->).
  apply countLineIs_pos in Hc. unfold rowsPresent in Hr. apply Z.leb_le in Hr. lia.
Qed.

(** Lines after the second block do not matter to a returning parse. *)
Lemma parseLines_agree (lines lines' : list string) (g1 g2 : Graph)
  (next1 next2 : nat) :
  parseSingleGraph lines 0 0 = Return (g1, next1) ->
  parseSingleGraph lines next1 1 = Return (g2, next2) ->
  (forall k, k < next2 -> nth_error lines' k = nth_error lines k) ->
  parseLines lines' = Return (g1, g2).
Proof.
  intros H1 H2 Hagree.
  pose proof (parseSingleGraph_next_le _ _ _ _ _ H2) as Hle.
  apply (parseLines_Return_intro lines' g1 g2 next1 next2).
  - apply (parseSingleGraph_agree lines); auto. intros k Hk. apply Hagree. lia.
  - apply (parseSingleGraph_agree lines); auto.
Qed.

Lemma parseLines_app (lines extra : list string) (r : Graph * Graph) :
  parseLines lines = Return r -> parseLines (lines ++ extra) = Return r.
Proof.
  destruct r as [g1 g2]. intros H.
  apply parseLines_Return_inv in H as (_ & n1 & n2 & H1 & H2).
  apply (parseLines_agree lines _ g1 g2 n1 n2 H1 H2).
  intros k Hk. apply nth_error_app1.
  apply parseSingleGraph_next_le in H2. lia.
Qed.

Lemma validBlock_rowsPresent (lines : list string) (startLine : nat) (N : Z) :
  validBlock lines startLine N = true ->
  countLineIs lines startLine N = true
  /\ rowsPresent lines startLine N = true
  /\ forallb (rowValid lines (startLine + 1) N) (seq 0 (Z.to_nat N)) = true.
Proof.
  unfold validBlock. intros H. apply andb_prop in H as [Hc Hrows].
  split; [exact Hc|]. split; [|exact Hrows].
  pose proof (countLineIs_pos _ _ _ Hc) as Hpos.
  rewrite forallb_forall in Hrows.
  assert (Hlast : rowValid lines (startLine + 1) N (Z.to_nat N - 1) = true).
  { apply Hrows. apply in_seq. lia. }
  unfold rowValid in Hlast.
  destruct (nth_error lines (startLine + 1 + (Z.to_nat N - 1))) eqn:E;
    [|discriminate].
  assert (startLine + 1 + (Z.to_nat N - 1) < length lines)
    by (apply nth_error_Some; congruence).
  unfold rowsPresent. apply Z.leb_le. lia.
Qed.

(** A well-formed block is returned as the graph of its matrix. *)
Lemma parseSingleGraph_valid (lines : list string) (startLine graphIndex : nat)
  (N : Z) :
  fitsInt lines ->
  validBlock lines startLine N = true ->
  parseSingleGraph lines startLine graphIndex =
  Return (graphOfEdges (String.append "graph_" (number graphIndex)) (Z.to_nat N)
            (matrixEdges (cellOne lines startLine) (Z.to_nat N)),
          startLine + 1 + Z.to_nat N).
Proof.
  intros Hfit Hvalid.
  apply validBlock_rowsPresent in Hvalid as (Hc & Hr & Hrows).
  rewrite (parseSingleGraph_scan lines startLine graphIndex N
             (rowsPresent_fits _ _ _ Hfit Hr) Hc Hr).
  apply (matrixChecks_valid lines startLine N graphIndex Hr) in Hrows.
  rewrite Hrows. reflexivity.
Qed.

(* ===================================================================== *)
(** ** The properties of the specification *)
(* ===================================================================== *)

(** C1. For every valid input, two well-formed blocks one after the other,
    [parseData] returns two graphs; each has exactly the declared number of
    vertices, labelled by their index in index order, and its edges are
    exactly the pairs (i, j) whose matrix cell is 1, each edge once, filed
    as outgoing on vertex i and as incoming on vertex j. *)
Theorem C1_valid_input_graphs (data : string) (N1 N2 : Z) :
  fitsInt (trimmedLines data) ->
  validBlock (trimmedLines data) 0 N1 = true ->
  validBlock (trimmedLines data) (0 + 1 + Z.to_nat N1) N2 = true ->
  exists g1 g2,
    parseData data = Return (g1, g2)
    /\ represents (cellOne (trimmedLines data) 0) (Z.to_nat N1) g1
    /\ represents (cellOne (trimmedLines data) (0 + 1 + Z.to_nat N1))
                  (Z.to_nat N2) g2.
Proof.
  intros Hfit H1 H2.
  pose proof (parseSingleGraph_valid _ 0 0 N1 Hfit H1) as P1.
  pose proof (parseSingleGraph_valid _ (0 + 1 + Z.to_nat N1) 1 N2 Hfit H2) as P2.
  eexists. eexists. split.
  - unfold parseData. eapply parseLines_Return_intro; eassumption.
  - split; apply graphOfEdges_represents.
Qed.

Lemma C1_valid_input_graphs_witness :
  exists g1 g2,
    parseData twoGraphs = Return (g1, g2)
    /\ represents (cellOne (trimmedLines twoGraphs) 0) 2 g1
    /\ represents (cellOne (trimmedLines twoGraphs) 3) 1 g2.
Proof.
  apply (C1_valid_input_graphs twoGraphs 2 1).
  - unfold fitsInt. vm_compute. discriminate.
  - vm_compute. reflexivity.
  - vm_compute. reflexivity.
Defined.





(** C8. An input whose line stream, after trimming and the removal of the
    trailing blank lines, has fewer than two lines fails with the
    malformed-input exception; so does every single-line input, with or
    without its final newline. *)
Theorem C8_too_few_lines :
  (forall data, length (trimmedLines data) < 2 ->
                parseData data = Throw TooFewLines
                /\ failsWith (parseData data) MalformedInput)
  /\ (forall line, noLF line = true ->
                   failsWith (parseData line) MalformedInput
                   /\ failsWith (parseData (line ++ nl)) MalformedInput).
Proof.
  assert (Hshort : forall data, length (trimmedLines data) < 2 ->
                     parseData data = Throw TooFewLines
                     /\ failsWith (parseData data) MalformedInput).
  { intros data H. unfold parseData, failsWith.
    rewrite parseLines_short by assumption. eauto. }
  split; [exact Hshort|].
  intros line Hline.
  assert (Hlen : forall s, length (split LF s) < 2 -> length (trimmedLines s) < 2).
  { intros s Hs. unfold trimmedLines.
    pose proof (removeLastWhileEmpty_length (map trimmed (split LF s))) as Hle.
    rewrite length_map in Hle. lia. }
  split; apply Hshort, Hlen; unfold split.
  - rewrite splitKeep_noLF by assumption. simpl. destruct (isEmpty line); simpl; lia.
  - unfold nl. rewrite splitKeep_app, splitKeep_noLF by assumption. simpl.
    destruct (isEmpty line); simpl; lia.
Qed.

Lemma C8_too_few_lines_witness :
  (parseData zeroAlone = Throw TooFewLines
   /\ failsWith (parseData zeroAlone) MalformedInput)
  /\ failsWith (parseData "3") MalformedInput
  /\ failsWith (parseData ("3" ++ nl)) MalformedInput.
Proof.
  split.
  - apply (proj1 C8_too_few_lines zeroAlone). vm_compute. lia.
  - apply (proj2 C8_too_few_lines "3"). reflexivity.
Defined.

(** C9. Lines after the last matrix row of the second block are ignored.
    A text that parses keeps its result when any further lines follow it,
    blank or not; and the result of a parse is the result of parsing the
    line stream cut at the end of the second block. *)
Theorem C9_trailing_lines_ignored :
  (forall body trailing r,
      parseData body = Return r ->
      parseData (body ++ nl ++ trailing) = Return r)
  /\ (forall data g1 g2,
        parseData data = Return (g1, g2) ->
        exists next1 next2,
          parseSingleGraph (trimmedLines data) 0 0 = Return (g1, next1)
          /\ parseSingleGraph (trimmedLines data) next1 1 = Return (g2, next2)
          /\ parseLines (firstn next2 (trimmedLines data)) = Return (g1, g2)).
Proof.
  split.
  - intros body trailing r H. unfold parseData in *.
    rewrite trimmedLines_app, removeLastWhileEmpty_app.
    fold (trimmedLines trailing).
    destruct (trimmedLines trailing) as [|x rest] eqn:E.
    + exact H.
    + destruct (removeLastWhileEmpty_prefix (map trimmed (split LF body)))
        as (T & HT & _).
      fold (trimmedLines body) in HT. rewrite HT, <- app_assoc.
      apply parseLines_app. exact H.
  - intros data g1 g2 H. unfold parseData in H.
    apply parseLines_Return_inv in H as (_ & n1 & n2 & H1 & H2).
    exists n1, n2. repeat split; auto.
    apply (parseLines_agree (trimmedLines data) _ g1 g2 n1 n2 H1 H2).
    intros k Hk. rewrite nth_error_firstn.
    destruct (Nat.ltb_spec k n2); [reflexivity|lia].
Qed.

Lemma C9_trailing_lines_ignored_witness :
  parseData (twoGraphs ++ nl ++ ("mapping 0 1" ++ nl ++ "  " ++ nl)) =
  Return (graphOfEdges "graph_0" 2 [mkEdge 0 0; mkEdge 1 1],
          graphOfEdges "graph_1" 1 []).
Proof.
  apply (proj1 C9_trailing_lines_ignored twoGraphs). reflexivity.
Defined.

(* ===================================================================== *)
(** ** The first failing check *)
(* ===================================================================== *)

Lemma rowValid_checks_None (lines : list string) (currentLine : nat) (N : Z)
  (graphIndex i : nat) :
  rowValid lines currentLine N i = true ->
  firstSome (rowChecks lines currentLine N graphIndex i) = None.
Proof.
  intros H. apply rowChecks_valid; [|exact H].
  unfold rowValid in H.
  destruct (nth_error lines (currentLine + i)) eqn:E; [|discriminate].
  apply nth_error_Some. congruence.
Qed.

Lemma first_bad_row (lines : list string) (currentLine : nat) (N : Z)
  (graphIndex i : nat) (e : Exception) :
  i < Z.to_nat N ->
  (forall k, k < i -> rowValid lines currentLine N k = true) ->
  firstSome (rowChecks lines currentLine N graphIndex i) = Some e ->
  firstSome (matrixChecks lines currentLine N graphIndex) = Some e.
Proof.
  intros Hi Hbefore Hat. unfold matrixChecks.
  apply (firstSome_flat_map_seq _ _ i); auto.
  intros k Hk. apply rowValid_checks_None. auto.
Qed.


(** In a block that [parseData] reaches, with an accepted count line and
    all its rows there, the first failing check of the matrix is the
    exception of the parse. *)
Lemma parseData_first_failure (data : string) (b startLine : nat) (N : Z)
  (e : Exception) :
  blockStart (trimmedLines data) b = Some startLine ->
  fitsInt (trimmedLines data) ->
  countLineIs (trimmedLines data) startLine N = true ->
  rowsPresent (trimmedLines data) startLine N = true ->
  firstSome (matrixChecks (trimmedLines data) (startLine + 1) N b) = Some e ->
  parseData data = Throw e.
Proof.
  intros Hstart Hfit Hc Hr He. unfold parseData.
  apply (parseLines_block_Throw _ b startLine e Hstart).
  rewrite (parseSingleGraph_scan _ startLine b N
             (rowsPresent_fits _ _ _ Hfit Hr) Hc Hr), He.
  reflexivity.
Qed.





(** C5, as amended.  In a block that [parseData] reaches, with an accepted
    count line and all its rows there, the first row whose token count
    differs from the declared vertex count, every row before it being
    well formed, makes the parse fail with the row-length exception, which
    carries the 1-indexed row, the 1-indexed block, the actual and the
    expected count. *)
Theorem C5_row_length_mismatch (data : string) (b startLine : nat) (N : Z)
  (i : nat) (line : string) :
  blockStart (trimmedLines data) b = Some startLine ->
  fitsInt (trimmedLines data) ->
  countLineIs (trimmedLines data) startLine N = true ->
  rowsPresent (trimmedLines data) startLine N = true ->
  i < Z.to_nat N ->
  (forall k, k < i -> rowValid (trimmedLines data) (startLine + 1) N k = true) ->
  nth_error (trimmedLines data) (startLine + 1 + i) = Some line ->
  Z.of_nat (length (split SP line)) <> N ->
  parseData data =
    Throw (BadRowLength (i + 1) (b + 1) (length (split SP line)) N)
  /\ failsWith (parseData data) RowLengthMismatch.
Proof.
  intros Hstart Hfit Hc Hr Hi Hbefore Hline Hlen.
  assert (H : parseData data =
              Throw (BadRowLength (i + 1) (b + 1) (length (split SP line)) N)).
  { apply (parseData_first_failure data b startLine N _ Hstart Hfit Hc Hr).
    apply (first_bad_row _ _ _ _ i); auto.
    unfold rowChecks. rewrite Hline. simpl.
    destruct (Z.eqb_spec (Z.of_nat (length (split SP line))) N); [contradiction|].
    reflexivity. }
  split; [exact H|]. unfold failsWith. rewrite H. eauto.
Qed.

Lemma C5_row_length_mismatch_witness :
  parseData shortRow = Throw (BadRowLength 2 1 1 2)
  /\ failsWith (parseData shortRow) RowLengthMismatch.
Proof.
  apply (C5_row_length_mismatch shortRow 0 0 2 1 "0").
  - reflexivity.
  - unfold fitsInt. vm_compute. discriminate.
  - reflexivity.
  - reflexivity.
  - vm_compute. lia.
  - intros k Hk. assert (k = 0) by lia. subst k. reflexivity.
  - reflexivity.
  - vm_compute. discriminate.
Defined.

(** C5 as stated fails: in this input the second row of block 1 has one
    token where two are declared, yet the parse fails on the value 2 of the
    first row, with the invalid-matrix-value exception. *)
Lemma C5_counterexample :
  countLineIs (trimmedLines twoThenShortRow) 0 2 = true
  /\ nth_error (trimmedLines twoThenShortRow) (0 + 1 + 1) = Some "0"
  /\ length (split SP "0") = 1
  /\ parseData twoThenShortRow = Throw (NotZeroOrOne 2 1 2 1)
  /\ ~ failsWith (parseData twoThenShortRow) RowLengthMismatch.
Proof.
  repeat split; try reflexivity.
  intros (e & He & Hk). vm_compute in He. inversion He; subst. discriminate.
Qed.




Lemma firstSome_In {A : Type} (l : list (option A)) (a : A) :
  firstSome l = Some a -> In (Some a) l.
Proof.
  induction l as [|[x|] l IH]; simpl; intros H.
  - discriminate.
  - left. exact H.
  - right. auto.
Qed.

Lemma rowChecks_named (lines : list string) (currentLine : nat) (N : Z)
  (graphIndex i : nat) (e : Exception) :
  In (Some e) (rowChecks lines currentLine N graphIndex i) ->
  namedRow e = Some (i + 1).
Proof.
  unfold rowChecks. destruct (nth_error lines (currentLine + i)) as [line|];
    [|intros []].
  simpl. intros [H|H].
  - destruct (Z.of_nat (length (split SP line)) =? N)%Z; inversion H. reflexivity.
  - apply in_map_iff in H as (j & H & _). unfold cellCheck in H.
    destruct (nth_error (split SP line) j) as [tok|]; [|discriminate].
    destruct (toInt tok) as [w ok]. destruct ok; simpl in H.
    + destruct ((w =? 0)%Z || (w =? 1)%Z); inversion H. reflexivity.
    + inversion H. reflexivity.
Qed.





(* ===================================================================== *)
(** ** Blank lines *)
(* ===================================================================== *)

Lemma parseLines_second_Throw (lines : list string) (g1 : Graph) (next1 : nat)
  (e : Exception) :
  parseSingleGraph lines 0 0 = Return (g1, next1) ->
  parseSingleGraph lines next1 1 = Throw e ->
  parseLines lines = Throw e.
Proof.
  intros H1 H2. apply (parseLines_block_Throw lines 1 next1 e); [|exact H2].
  pose proof (parseSingleGraph_next_le _ _ _ _ _ H1) as Hle.
  destruct (parseSingleGraph_Return_inv _ _ _ _ _ H1)
    as (N & Hc & Hr & Ho & Hk & Hg & Hn).
  apply countLineIs_pos in Hc.
  assert (Hlen : 2 <= length lines) by lia.
  unfold blockStart. destruct (Nat.ltb_spec (length lines) 2); [lia|].
  rewrite H1. reflexivity.
Qed.

(** An empty line put on a line that a returning block read makes the
    block throw. *)
Lemma empty_line_breaks_block (lines lines' : list string)
  (startLine b k : nat) (g : Graph) (nextLine : nat) :
  parseSingleGraph lines startLine b = Return (g, nextLine) ->
  startLine <= k < nextLine ->
  (forall m, m < k -> nth_error lines' m = nth_error lines m) ->
  nth_error lines' k = Some EmptyString ->
  nextLine <= length lines' ->
  exists e, parseSingleGraph lines' startLine b = Throw e.
Proof.
  intros H Hk Hagree Hblank Hlen.
  apply parseSingleGraph_Return_inv in H as (N & Hc & Hr & Ho & Hchecks & _ & ->).
  pose proof (countLineIs_pos _ _ _ Hc) as Hpos.
  destruct (Nat.eq_dec k startLine) as [->|Hne].
  - exists (BadVertexCount EmptyString (b + 1)).
    apply parseSingleGraph_badCount; [exact Hblank|]. left. reflexivity.
  - assert (Hc' : countLineIs lines' startLine N = true).
    { rewrite (countLineIs_agree lines lines' k Hagree) by lia. exact Hc. }
    assert (Hr' : rowsPresent lines' startLine N = true).
    { unfold rowsPresent. apply Z.leb_le. lia. }
    exists (BadRowLength (k - startLine - 1 + 1) (b + 1) 0 N).
    rewrite (parseSingleGraph_scan lines' startLine b N Ho Hc' Hr').
    apply (matrixChecks_valid lines startLine N b Hr) in Hchecks.
    rewrite forallb_forall in Hchecks.
    rewrite (first_bad_row lines' (startLine + 1) N b (k - startLine - 1)
               (BadRowLength (k - startLine - 1 + 1) (b + 1) 0 N)).
    + reflexivity.
    + lia.
    + intros m Hm. rewrite (rowValid_agree lines lines' k Hagree) by lia.
      apply Hchecks. apply in_seq. lia.
    + unfold rowChecks.
      replace (startLine + 1 + (k - startLine - 1)) with k by lia.
      rewrite Hblank.
      change (length (split SP EmptyString)) with 0.
      change (Z.of_nat 0) with 0%Z.
      destruct (Z.eqb_spec 0 N); [lia|]. reflexivity.
Qed.

Lemma split_blankLine (w b : string) :
  blankLine w = true ->
  map trimmed (split LF (w ++ nl ++ b)) = EmptyString :: map trimmed (split LF b).
Proof.
  unfold blankLine. intros H.
  apply andb_prop in H as [H Hspace]. apply andb_prop in H as [Hne Hlf].
  unfold nl. simpl. rewrite split_app. unfold split at 1.
  rewrite splitKeep_noLF by assumption. simpl. rewrite Hne. simpl.
  rewrite trimmed_allSpace by assumption. reflexivity.
Qed.

Lemma trimmedLines_blank_interior (a w b : string) :
  blankLine w = true ->
  trimmedLines b <> [] ->
  trimmedLines (a ++ nl ++ w ++ nl ++ b) =
    map trimmed (split LF a) ++ EmptyString :: trimmedLines b
  /\ trimmedLines (a ++ nl ++ b) = map trimmed (split LF a) ++ trimmedLines b.
Proof.
  intros Hw Hb. rewrite !trimmedLines_app, split_blankLine by assumption.
  rewrite !removeLastWhileEmpty_app. fold (trimmedLines b).
  change (EmptyString :: map trimmed (split LF b))
    with ([EmptyString] ++ map trimmed (split LF b)).
  rewrite removeLastWhileEmpty_app. fold (trimmedLines b).
  destruct (trimmedLines b) as [|x r]; [congruence|]. simpl. auto.
Qed.

Lemma trimmedLines_blank_trailing (a w : string) :
  allSpace w = true -> trimmedLines (a ++ nl ++ w) = trimmedLines a.
Proof.
  intros Hw. rewrite trimmedLines_app, removeLastWhileEmpty_app.
  rewrite removeLastWhileEmpty_all_empty; [reflexivity|].
  intros x Hx. apply in_map_iff in Hx as (p & <- & Hp).
  apply trimmed_allSpace. unfold split in Hp. apply filter_In in Hp as [Hp _].
  apply (splitKeep_allSpace LF w Hw p Hp).
Qed.

Lemma trimmedLines_empty_interior (a b : string) :
  trimmedLines (a ++ nl ++ nl ++ b) = trimmedLines (a ++ nl ++ b).
Proof.
  rewrite !trimmedLines_app. unfold nl at 1. simpl.
  rewrite split_leading_sep. reflexivity.
Qed.

(** C2, as amended.  A line without any character is dropped by the split
    wherever it stands, so putting one between two lines changes neither
    the line stream nor the result.  A line that holds only white space is
    not skipped: between other lines it stays in the line stream, as an
    empty line; at the end of the text it is discarded.  Put before the end
    of the second block of a text that parses, such a line makes the parse
    fail. *)
Theorem C2_blank_lines :
  (forall a b,
      trimmedLines (a ++ nl ++ nl ++ b) = trimmedLines (a ++ nl ++ b)
      /\ parseData (a ++ nl ++ nl ++ b) = parseData (a ++ nl ++ b))
  /\ (forall a w b,
        blankLine w = true ->
        trimmedLines b <> [] ->
        trimmedLines (a ++ nl ++ w ++ nl ++ b) =
          map trimmed (split LF a) ++ EmptyString :: trimmedLines b
        /\ trimmedLines (a ++ nl ++ b) =
             map trimmed (split LF a) ++ trimmedLines b)
  /\ (forall a w,
        allSpace w = true -> trimmedLines (a ++ nl ++ w) = trimmedLines a)
  /\ (forall a w b g1 g2 next1 next2,
        blankLine w = true ->
        parseSingleGraph (trimmedLines (a ++ nl ++ b)) 0 0 = Return (g1, next1) ->
        parseSingleGraph (trimmedLines (a ++ nl ++ b)) next1 1 =
          Return (g2, next2) ->
        length (split LF a) < next2 ->
        parseData (a ++ nl ++ b) = Return (g1, g2)
        /\ exists e, parseData (a ++ nl ++ w ++ nl ++ b) = Throw e).
Proof.
  split; [|split; [|split]].
  - intros a b. unfold parseData. rewrite trimmedLines_empty_interior. auto.
  - apply trimmedLines_blank_interior.
  - apply trimmedLines_blank_trailing.
  - intros a w b g1 g2 next1 next2 Hw H1 H2 Hk.
    split; [unfold parseData; eapply parseLines_Return_intro; eauto|].
    pose proof (parseSingleGraph_next_le _ _ _ _ _ H1) as Hle1.
    pose proof (parseSingleGraph_next_le _ _ _ _ _ H2) as Hle2.
    assert (Hb : trimmedLines b <> []).
    { intros Hb. rewrite trimmedLines_app, removeLastWhileEmpty_app in Hle2.
      fold (trimmedLines b) in Hle2. rewrite Hb in Hle2.
      pose proof (removeLastWhileEmpty_length (map trimmed (split LF a))) as Hlen.
      rewrite length_map in Hlen. lia. }
    destruct (trimmedLines_blank_interior a w b Hw Hb) as [E' E].
    unfold parseData. rewrite E'. rewrite E in *.
    set (A := map trimmed (split LF a)) in *.
    set (B := trimmedLines b) in *.
    assert (HA : length A = length (split LF a)) by (unfold A; apply length_map).
    assert (Hagree : forall m, m < length A ->
                       nth_error (A ++ EmptyString :: B) m = nth_error (A ++ B) m).
    { intros m Hm. rewrite !nth_error_app1 by assumption. reflexivity. }
    assert (Hblank : nth_error (A ++ EmptyString :: B) (length A) = Some EmptyString).
    { rewrite nth_error_app2 by lia. rewrite Nat.sub_diag. reflexivity. }
    assert (Hlen' : length (A ++ EmptyString :: B) = Datatypes.S (length (A ++ B))).
    { rewrite !length_app. simpl. lia. }
    destruct (Nat.lt_ge_cases (length A) next1) as [Hin1|Hin2].
    + destruct (empty_line_breaks_block (A ++ B) (A ++ EmptyString :: B)
                  0 0 (length A) g1 next1 H1) as [e He]; auto; try lia.
      exists e. apply (parseLines_block_Throw _ 0 0 e); [|exact He].
      unfold blockStart. rewrite Hlen'.
      destruct (Nat.ltb_spec (Datatypes.S (length (A ++ B))) 2); [lia|reflexivity].
    + destruct (empty_line_breaks_block (A ++ B) (A ++ EmptyString :: B)
                  next1 1 (length A) g2 next2 H2) as [e He]; auto; try lia.
      exists e. apply (parseLines_second_Throw _ g1 next1 e); [|exact He].
      apply (parseSingleGraph_agree (A ++ B)); auto.
      intros m Hm. apply Hagree. lia.
Qed.

Lemma C2_blank_lines_witness :
  (trimmedLines oneBlankOne = ["1"; "0"; EmptyString; "1"; "0"]
   /\ trimmedLines oneAndOne = ["1"; "0"; "1"; "0"])
  /\ trimmedLines (oneAndOne ++ nl ++ "   ") = trimmedLines oneAndOne
  /\ (parseData oneAndOne =
        Return (graphOfEdges "graph_0" 1 [], graphOfEdges "graph_1" 1 [])
      /\ exists e, parseData oneBlankOne = Throw e).
Proof.
  split; [|split].
  - apply (proj1 (proj2 C2_blank_lines)
             ("1" ++ nl ++ "0")%string " " ("1" ++ nl ++ "0" ++ nl)%string).
    + reflexivity.
    + vm_compute. discriminate.
  - apply (proj1 (proj2 (proj2 C2_blank_lines)) oneAndOne "   "). reflexivity.
  - apply (proj2 (proj2 (proj2 C2_blank_lines))
             ("1" ++ nl ++ "0")%string " " ("1" ++ nl ++ "0" ++ nl)%string
             (graphOfEdges "graph_0" 1 []) (graphOfEdges "graph_1" 1 []) 2 4).
    + reflexivity.
    + reflexivity.
    + reflexivity.
    + vm_compute. lia.
Defined.

(** C2 as stated fails: this input has an empty line between its two
    blocks; the line is skipped, and the input has the line stream and the
    result of the same input without that line. *)
Lemma C2_counterexample :
  oneGapOne = (("1" ++ nl ++ "0") ++ nl ++ EmptyString ++ nl
               ++ ("1" ++ nl ++ "0" ++ nl))%string
  /\ oneAndOne = (("1" ++ nl ++ "0") ++ nl ++ ("1" ++ nl ++ "0" ++ nl))%string
  /\ trimmedLines oneGapOne = ["1"; "0"; "1"; "0"]
  /\ trimmedLines oneGapOne = trimmedLines oneAndOne
  /\ parseData oneGapOne = parseData oneAndOne
  /\ parseData oneGapOne =
       Return (graphOfEdges "graph_0" 1 [], graphOfEdges "graph_1" 1 []).
Proof. repeat split; reflexivity. Qed.

(* ===================================================================== *)
(** ** Every outcome of a block *)
(* ===================================================================== *)

Lemma parseSingleGraph_overflow (lines : list string)
  (startLine graphIndex : nat) (N : Z) :
  countLineIs lines startLine N = true ->
  (INT_MAX < Z.of_nat (startLine + 1) + N)%Z ->
  parseSingleGraph lines startLine graphIndex = Undefined.
Proof.
  unfold countLineIs, parseSingleGraph, at_. intros Hcount Ho.
  destruct (nth_error lines startLine) as [countLine|] eqn:E; [|discriminate].
  assert (Hlt : startLine < length lines) by (apply nth_error_Some; congruence).
  destruct (Nat.leb_spec (length lines) startLine); [lia|]. simpl.
  destruct (toInt countLine) as [v ok].
  apply andb_prop in Hcount as [Hcount Hpos].
  apply andb_prop in Hcount as [Hok Hv].
  apply Z.eqb_eq in Hv. subst v ok. apply Z.ltb_lt in Hpos. simpl.
  destruct (Z.leb_spec N 0); [lia|].
  destruct (Z.ltb_spec INT_MAX (Z.of_nat (startLine + 1) + N)); [reflexivity|lia].
Qed.

(** The five ways a block can go, by the checks in source order. *)
Lemma parseSingleGraph_cases (lines : list string) (startLine b : nat) :
  (length lines <= startLine
   /\ parseSingleGraph lines startLine b = Throw (UnexpectedEnd (b + 1)))
  \/ (exists countLine,
        nth_error lines startLine = Some countLine
        /\ (snd (toInt countLine) = false \/ (fst (toInt countLine) <= 0)%Z)
        /\ parseSingleGraph lines startLine b =
           Throw (BadVertexCount countLine (b + 1)))
  \/ (exists N,
        countLineIs lines startLine N = true
        /\ (INT_MAX < Z.of_nat (startLine + 1) + N)%Z
        /\ parseSingleGraph lines startLine b = Undefined)
  \/ (exists N,
        countLineIs lines startLine N = true
        /\ (Z.of_nat (startLine + 1) + N <= INT_MAX)%Z
        /\ rowsPresent lines startLine N = false
        /\ parseSingleGraph lines startLine b = Throw (NotEnoughLines (b + 1)))
  \/ (exists N,
        countLineIs lines startLine N = true
        /\ (Z.of_nat (startLine + 1) + N <= INT_MAX)%Z
        /\ rowsPresent lines startLine N = true
        /\ parseSingleGraph lines startLine b =
           match firstSome (matrixChecks lines (startLine + 1) N b) with
           | Some e => Throw e
           | None =>
               Return (graphOfEdges (String.append "graph_" (number b))
                         (Z.to_nat N)
                         (matrixEdges (cellOne lines startLine) (Z.to_nat N)),
                       startLine + 1 + Z.to_nat N)
           end).
Proof.
  destruct (le_lt_dec (length lines) startLine) as [Hend|Hin].
  { left. split; [exact Hend|]. apply parseSingleGraph_end. exact Hend. }
  right.
  destruct (nth_error lines startLine) as [countLine|] eqn:E.
  2:{ apply nth_error_None in E. lia. }
  destruct (toInt countLine) as [v ok] eqn:Eint.
  destruct ok.
  2:{ left. exists countLine. split; [reflexivity|]. split.
      - left. rewrite Eint. reflexivity.
      - apply parseSingleGraph_badCount; [exact E|]. left. rewrite Eint. reflexivity. }
  destruct (Z.leb_spec v 0) as [Hle|Hpos].
  { left. exists countLine. split; [reflexivity|]. split.
    - right. rewrite Eint. exact Hle.
    - apply parseSingleGraph_badCount; [exact E|]. right. rewrite Eint. exact Hle. }
  right.
  assert (Hc : countLineIs lines startLine v = true).
  { unfold countLineIs. rewrite E, Eint, Z.eqb_refl. simpl. apply Z.ltb_lt. lia. }
  destruct (Z.ltb_spec INT_MAX (Z.of_nat (startLine + 1) + v)) as [Ho|Ho].
  { left. exists v. repeat split; auto. apply (parseSingleGraph_overflow _ _ _ v); auto. }
  right.
  destruct (rowsPresent lines startLine v) eqn:Hr.
  - right. exists v. repeat split; auto. apply parseSingleGraph_scan; auto.
  - left. exists v. repeat split; auto. apply (parseSingleGraph_notEnough _ _ _ v); auto.
Qed.

Lemma matrixChecks_named (lines : list string) (currentLine : nat) (N : Z)
  (b : nat) (e : Exception) :
  firstSome (matrixChecks lines currentLine N b) = Some e ->
  exists i, i < Z.to_nat N
            /\ In (Some e) (rowChecks lines currentLine N b i).
Proof.
  intros H. apply firstSome_In in H. unfold matrixChecks in H.
  apply in_flat_map in H as (i & Hi & H). apply in_seq in Hi.
  exists i. split; [lia|exact H].
Qed.

(** What [parseLines] throws was thrown by the line count or by a block it
    reached; what it leaves undefined was left undefined by such a block. *)
Lemma parseLines_Throw_inv (lines : list string) (e : Exception) :
  parseLines lines = Throw e ->
  (length lines < 2 /\ e = TooFewLines)
  \/ exists b startLine,
       blockStart lines b = Some startLine
       /\ parseSingleGraph lines startLine b = Throw e.
Proof.
  intros H. destruct (Nat.ltb_spec (length lines) 2) as [Hlt|Hge].
  - left. rewrite parseLines_short in H by assumption. inversion H. auto.
  - right. rewrite parseLines_long in H by assumption.
    destruct (parseSingleGraph lines 0 0) as [[g1 n1]| |] eqn:E1; simpl in H;
      try discriminate.
    + exists 1, n1. unfold blockStart.
      destruct (Nat.ltb_spec (length lines) 2); [lia|]. rewrite E1.
      split; [reflexivity|].
      destruct (parseSingleGraph lines n1 1) as [[g2 n2]| |]; simpl in H;
        try discriminate. congruence.
    + exists 0, 0. unfold blockStart.
      destruct (Nat.ltb_spec (length lines) 2); [lia|].
      split; [reflexivity|]. congruence.
Qed.

Lemma parseLines_Undefined_inv (lines : list string) :
  parseLines lines = Undefined ->
  exists b startLine,
    blockStart lines b = Some startLine
    /\ parseSingleGraph lines startLine b = Undefined.
Proof.
  intros H. destruct (Nat.ltb_spec (length lines) 2) as [Hlt|Hge].
  - rewrite parseLines_short in H by assumption. discriminate.
  - rewrite parseLines_long in H by assumption.
    destruct (parseSingleGraph lines 0 0) as [[g1 n1]| |] eqn:E1; simpl in H;
      try discriminate.
    + exists 1, n1. unfold blockStart.
      destruct (Nat.ltb_spec (length lines) 2); [lia|]. rewrite E1.
      split; [reflexivity|].
      destruct (parseSingleGraph lines n1 1) as [[g2 n2]| |]; simpl in H;
        try discriminate. reflexivity.
    + exists 0, 0. unfold blockStart.
      destruct (Nat.ltb_spec (length lines) 2); [lia|].
      split; [reflexivity|exact E1].
Qed.

Lemma parseLines_block_Undefined (lines : list string) (b startLine : nat) :
  blockStart lines b = Some startLine ->
  parseSingleGraph lines startLine b = Undefined ->
  parseLines lines = Undefined.
Proof.
  unfold blockStart. intros Hstart Hu.
  destruct b as [|[|b]]; [| |discriminate];
    destruct (Nat.ltb_spec (length lines) 2); try discriminate;
    rewrite parseLines_long by assumption.
  - inversion Hstart; subst. rewrite Hu. reflexivity.
  - destruct (parseSingleGraph lines 0 0) as [[g1 n1]| |]; try discriminate.
    inversion Hstart; subst. simpl. rewrite Hu. reflexivity.
Qed.

Lemma blockStart_bounds (lines : list string) (b startLine : nat) :
  blockStart lines b = Some startLine ->
  2 <= length lines
  /\ ((b = 0 /\ startLine = 0)
      \/ (b = 1 /\ 2 <= startLine <= length lines
          /\ exists g1, parseSingleGraph lines 0 0 = Return (g1, startLine))).
Proof.
  unfold blockStart. destruct b as [|[|b]]; [| |discriminate];
    destruct (Nat.ltb_spec (length lines) 2); try discriminate; intros Hs.
  - inversion Hs. auto.
  - destruct (parseSingleGraph lines 0 0) as [[g1 n1]| |] eqn:E1; try discriminate.
    inversion Hs; subst. split; [assumption|]. right. split; [reflexivity|].
    split; [|eauto].
    pose proof (parseSingleGraph_next_le _ _ _ _ _ E1).
    apply parseSingleGraph_Return_inv in E1 as (N & Hc & _ & _ & _ & _ & Hn).
    apply countLineIs_pos in Hc. lia.
Qed.


(** All the ways [parseData] can throw. *)
Lemma parseData_Throw_cases (data : string) (e : Exception) :
  parseData data = Throw e ->
  (length (trimmedLines data) < 2 /\ e = TooFewLines)
  \/ exists b startLine,
       blockStart (trimmedLines data) b = Some startLine
       /\ ((length (trimmedLines data) <= startLine /\ e = UnexpectedEnd (b + 1))
           \/ (exists countLine,
                 nth_error (trimmedLines data) startLine = Some countLine
                 /\ (snd (toInt countLine) = false
                     \/ (fst (toInt countLine) <= 0)%Z)
                 /\ e = BadVertexCount countLine (b + 1))
           \/ (exists N,
                 countLineIs (trimmedLines data) startLine N = true
                 /\ (Z.of_nat (startLine + 1) + N <= INT_MAX)%Z
                 /\ rowsPresent (trimmedLines data) startLine N = false
                 /\ e = NotEnoughLines (b + 1))
           \/ (exists N,
                 countLineIs (trimmedLines data) startLine N = true
                 /\ (Z.of_nat (startLine + 1) + N <= INT_MAX)%Z
                 /\ rowsPresent (trimmedLines data) startLine N = true
                 /\ firstSome (matrixChecks (trimmedLines data)
                                 (startLine + 1) N b) = Some e)).
Proof.
  unfold parseData. intros H.
  apply parseLines_Throw_inv in H as [H|(b & s & Hstart & H)]; [left; exact H|].
  right. exists b, s. split; [exact Hstart|].
  destruct (parseSingleGraph_cases (trimmedLines data) s b)
    as [[Hend E]|[(cl & Hcl & Hbad & E)|[(N & Hc & Ho & E)
       |[(N & Hc & Ho & Hr & E)|(N & Hc & Ho & Hr & E)]]]];
    rewrite E in H.
  - left. split; [exact Hend|]. congruence.
  - right; left. exists cl. repeat split; auto. congruence.
  - discriminate.
  - right; right; left. exists N. repeat split; auto. congruence.
  - right; right; right. exists N. repeat split; auto.
    destruct (firstSome _); [congruence|discriminate].
Qed.

Lemma matrixChecks_not_unnamed (lines : list string) (currentLine : nat)
  (N : Z) (b : nat) (e : Exception) :
  firstSome (matrixChecks lines currentLine N b) = Some e ->
  namedRow e <> None.
Proof.
  intros H. apply matrixChecks_named in H as (i & _ & H).
  apply rowChecks_named in H. congruence.
Qed.

(** X1. [parseData] reports the unexpected end of the file exactly when the
    text holds one graph and nothing after it: the first block returns at
    the end of the line stream.  The exception then names graph 2; the
    check can never fire for graph 1. *)
Theorem X1_unexpected_end (data : string) (g : nat) :
  parseData data = Throw (UnexpectedEnd g) <->
  (g = 2
   /\ exists g1,
        parseSingleGraph (trimmedLines data) 0 0 =
          Return (g1, length (trimmedLines data))).
Proof.
  split.
  - intros H. apply parseData_Throw_cases in H
      as [[_ H]|(b & s & Hstart & [[Hend H]|[(cl & _ & _ & H)
         |[(N & _ & _ & _ & H)|(N & _ & _ & _ & H)]]])]; try discriminate.
    + inversion H; subst.
      apply blockStart_bounds in Hstart
        as (Hlen & [[-> ->]|(-> & Hs & g1 & Hg1)]); [lia|].
      split; [reflexivity|]. exists g1.
      replace (length (trimmedLines data)) with s by lia. exact Hg1.
    + apply matrixChecks_not_unnamed in H. simpl in H. congruence.
  - intros (-> & g1 & H1). unfold parseData.
    apply (parseLines_second_Throw _ g1 _ _ H1).
    apply parseSingleGraph_end. lia.
Qed.

Lemma X1_unexpected_end_witness :
  parseData oneGraphOnly = Throw (UnexpectedEnd 2).
Proof.
  apply (proj2 (X1_unexpected_end oneGraphOnly 2)).
  split; [reflexivity|]. exists (graphOfEdges "graph_0" 1 []). reflexivity.
Defined.

(** X2. [parseData] reports missing matrix rows exactly when a block it
    reaches has an accepted count line, [startLine + 1 + vertexCount] does
    not overflow, and fewer than [vertexCount] lines follow the count
    line; the exception names that block. *)
Theorem X2_not_enough_lines (data : string) (g : nat) :
  parseData data = Throw (NotEnoughLines g) <->
  exists b startLine N,
    g = b + 1
    /\ blockStart (trimmedLines data) b = Some startLine
    /\ countLineIs (trimmedLines data) startLine N = true
    /\ (Z.of_nat (startLine + 1) + N <= INT_MAX)%Z
    /\ (Z.of_nat (length (trimmedLines data)) < Z.of_nat (startLine + 1) + N)%Z.
Proof.
  split.
  - intros H. apply parseData_Throw_cases in H
      as [[_ H]|(b & s & Hstart & [[Hend H]|[(cl & _ & _ & H)
         |[(N & Hc & Ho & Hr & H)|(N & _ & _ & _ & H)]]])]; try discriminate.
    + inversion H; subst. exists b, s, N. repeat split; auto.
      unfold rowsPresent in Hr. apply Z.leb_gt in Hr. exact Hr.
    + apply matrixChecks_not_unnamed in H. simpl in H. congruence.
  - intros (b & s & N & -> & Hstart & Hc & Ho & Hr). unfold parseData.
    apply (parseLines_block_Throw _ b s _ Hstart).
    apply (parseSingleGraph_notEnough _ _ _ N); auto.
    unfold rowsPresent. apply Z.leb_gt. exact Hr.
Qed.

Lemma X2_not_enough_lines_witness :
  parseData cutShort = Throw (NotEnoughLines 2).
Proof.
  apply (proj2 (X2_not_enough_lines cutShort 2)).
  exists 1, 2, 3%Z. repeat split; vm_compute; congruence.
Defined.

(** X3. The only undefined behaviour of [parseData] is the signed overflow
    of [currentLine + vertexCount]: the outcome is undefined exactly when
    a block it reaches has an accepted count line whose value, added to
    the index of the first matrix row, exceeds [INT_MAX].  No access
    [lines[...]] or [values[...]] is ever out of range. *)
Theorem X3_undefined_only_by_overflow (data : string) :
  parseData data = Undefined <->
  exists b startLine N,
    blockStart (trimmedLines data) b = Some startLine
    /\ countLineIs (trimmedLines data) startLine N = true
    /\ (INT_MAX < Z.of_nat (startLine + 1) + N)%Z.
Proof.
  unfold parseData. split.
  - intros H. apply parseLines_Undefined_inv in H as (b & s & Hstart & H).
    exists b, s.
    destruct (parseSingleGraph_cases (trimmedLines data) s b)
      as [[Hend E]|[(cl & Hcl & Hbad & E)|[(N & Hc & Ho & E)
         |[(N & Hc & Ho & Hr & E)|(N & Hc & Ho & Hr & E)]]]];
      rewrite E in H; try discriminate.
    + exists N. auto.
    + destruct (firstSome _); discriminate.
  - intros (b & s & N & Hstart & Hc & Ho).
    apply (parseLines_block_Undefined _ b s Hstart).
    apply (parseSingleGraph_overflow _ _ _ N); auto.
Qed.

Lemma X3_undefined_only_by_overflow_witness :
  parseData hugeCount = Undefined.
Proof.
  apply (proj2 (X3_undefined_only_by_overflow hugeCount)).
  exists 0, 0, 2147483647%Z. repeat split; vm_compute; congruence.
Defined.

(* ===================================================================== *)
(** ** What an exception reports *)
(* ===================================================================== *)





(* ===================================================================== *)
(** ** The graphs a parse returns *)
(* ===================================================================== *)

Lemma parseData_Return_shape (data : string) (g1 g2 : Graph) :
  parseData data = Return (g1, g2) ->
  exists N1 N2,
    (0 < N1)%Z /\ (0 < N2)%Z
    /\ 0 + 1 + Z.to_nat N1 + 1 + Z.to_nat N2 <= length (trimmedLines data)
    /\ g1 = graphOfEdges "graph_0" (Z.to_nat N1)
              (matrixEdges (cellOne (trimmedLines data) 0) (Z.to_nat N1))
    /\ g2 = graphOfEdges "graph_1" (Z.to_nat N2)
              (matrixEdges (cellOne (trimmedLines data) (0 + 1 + Z.to_nat N1))
                           (Z.to_nat N2)).
Proof.
  unfold parseData. intros H.
  apply parseLines_Return_inv in H as (_ & n1 & n2 & H1 & H2).
  pose proof (parseSingleGraph_next_le _ _ _ _ _ H2) as Hle.
  apply parseSingleGraph_Return_inv in H1 as (N1 & Hc1 & _ & _ & _ & -> & ->).
  apply parseSingleGraph_Return_inv in H2 as (N2 & Hc2 & _ & _ & _ & -> & ->).
  exists N1, N2. apply countLineIs_pos in Hc1, Hc2. repeat split; auto; lia.
Qed.

(** X5. The two graphs a parse returns are directed and carry the
    identifiers graph_0 and graph_1, in that order, whatever the text. *)
Theorem X5_graph_identifiers (data : string) (g1 g2 : Graph) :
  parseData data = Return (g1, g2) ->
  graphType g1 = DIRECTED /\ graphID g1 = "graph_0"
  /\ graphType g2 = DIRECTED /\ graphID g2 = "graph_1".
Proof.
  intros H. apply parseData_Return_shape in H as (N1 & N2 & _ & _ & _ & -> & ->).
  repeat split.
Qed.

Lemma X5_graph_identifiers_witness :
  graphType (graphOfEdges "graph_0" 2 [mkEdge 0 0; mkEdge 1 1]) = DIRECTED
  /\ graphID (graphOfEdges "graph_0" 2 [mkEdge 0 0; mkEdge 1 1]) = "graph_0"
  /\ graphType (graphOfEdges "graph_1" 1 []) = DIRECTED
  /\ graphID (graphOfEdges "graph_1" 1 []) = "graph_1".
Proof.
  apply (X5_graph_identifiers twoGraphs). reflexivity.
Defined.

Lemma length_rowEdges (cell : nat -> nat -> bool) (N i : nat) :
  length (rowEdges cell N i) <= N.
Proof.
  unfold rowEdges.
  assert (H : forall l, length (flat_map
                (fun j => if cell i j then [mkEdge i j] else []) l) <= length l).
  { induction l as [|j l IH]; simpl; [lia|].
    rewrite length_app. destruct (cell i j); simpl; lia. }
  specialize (H (seq 0 N)). rewrite length_seq in H. exact H.
Qed.

Lemma length_matrixEdges (cell : nat -> nat -> bool) (N : nat) :
  length (matrixEdges cell N) <= N * N.
Proof.
  unfold matrixEdges.
  assert (H : forall l, length (flat_map (rowEdges cell N) l) <= length l * N).
  { induction l as [|i l IH]; simpl; [lia|].
    rewrite length_app. pose proof (length_rowEdges cell N i). lia. }
  specialize (H (seq 0 N)). rewrite length_seq in H. exact H.
Qed.

(** X6. A parse that returns gives graphs no larger than the text: each
    graph has at least one vertex, the two vertex counts plus the two count
    lines fit in the line stream, which is no longer than the text, and a
    graph with n vertices has at most n * n edges. *)
Theorem X6_size_bounds (data : string) (g1 g2 : Graph) :
  parseData data = Return (g1, g2) ->
  1 <= length (vertices g1) /\ 1 <= length (vertices g2)
  /\ length (vertices g1) + length (vertices g2) + 2
     <= length (trimmedLines data)
  /\ length (trimmedLines data) <= String.length data
  /\ length (edges g1) <= length (vertices g1) * length (vertices g1)
  /\ length (edges g2) <= length (vertices g2) * length (vertices g2).
Proof.
  intros H. apply parseData_Return_shape in H
    as (N1 & N2 & Hp1 & Hp2 & Hlen & -> & ->).
  unfold graphOfEdges; simpl. rewrite !length_map, !length_seq.
  repeat split; try lia.
  - unfold trimmedLines.
    pose proof (removeLastWhileEmpty_length (map trimmed (split LF data))) as Ha.
    rewrite length_map in Ha. pose proof (split_length LF data). lia.
  - apply length_matrixEdges.
  - apply length_matrixEdges.
Qed.

Lemma X6_size_bounds_witness :
  1 <= 2 /\ 1 <= 1
  /\ 2 + 1 + 2 <= length (trimmedLines twoGraphs)
  /\ length (trimmedLines twoGraphs) <= String.length twoGraphs
  /\ 2 <= 2 * 2 /\ 0 <= 1 * 1.
Proof.
  exact (X6_size_bounds twoGraphs
           (graphOfEdges "graph_0" 2 [mkEdge 0 0; mkEdge 1 1])
           (graphOfEdges "graph_1" 1 []) eq_refl).
Defined.

Lemma list_sum_map_add {A : Type} (f g : A -> nat) (l : list A) :
  list_sum (map (fun a => f a + g a) l) = list_sum (map f l) + list_sum (map g l).
Proof. induction l as [|a l IH]; simpl; lia. Qed.

Lemma list_sum_indicator (x first n : nat) :
  list_sum (map (fun k => if x =? k then 1 else 0) (seq first n)) =
  if (first <=? x) && (x <? first + n) then 1 else 0.
Proof.
  revert first. induction n as [|n IH]; intros first; simpl.
  - destruct (Nat.leb_spec first x), (Nat.ltb_spec x (first + 0)); simpl; lia.
  - rewrite IH.
    destruct (Nat.eqb_spec x first), (Nat.leb_spec first x),
      (Nat.leb_spec (Datatypes.S first) x),
      (Nat.ltb_spec x (first + Datatypes.S n)),
      (Nat.ltb_spec x (Datatypes.S first + n)); simpl; lia.
Qed.

(** Filing edges under a key below N files each edge exactly once. *)
Lemma keyed_count (key : Edge -> nat) (es : list Edge) (N : nat) :
  (forall e, In e es -> key e < N) ->
  list_sum (map (fun k => length (filter (fun e => key e =? k) es)) (seq 0 N))
  = length es.
Proof.
  induction es as [|e es IH]; intros Hkey.
  - simpl. induction (seq 0 N); simpl; auto.
  - rewrite (map_ext _ (fun k => (if key e =? k then 1 else 0)
                                 + length (filter (fun e' => key e' =? k) es))).
    + rewrite list_sum_map_add, list_sum_indicator, IH.
      * specialize (Hkey e (or_introl eq_refl)).
        destruct (Nat.leb_spec 0 (key e)), (Nat.ltb_spec (key e) (0 + N));
          simpl; lia.
      * intros e' He'. apply Hkey. right; exact He'.
    + intros k. simpl. destruct (key e =? k); reflexivity.
Qed.

(** X7. In a graph a parse returns, the outgoing edge lists of the vertices
    together hold each edge of the graph once, and so do the incoming edge
    lists: the out-degrees and the in-degrees both sum to the number of
    edges. *)
Theorem X7_degree_sums (data : string) (g1 g2 : Graph) :
  parseData data = Return (g1, g2) ->
  outDegreeSum g1 = length (edges g1) /\ inDegreeSum g1 = length (edges g1)
  /\ outDegreeSum g2 = length (edges g2) /\ inDegreeSum g2 = length (edges g2).
Proof.
  intros H. apply parseData_Return_shape in H as (N1 & N2 & _ & _ & _ & -> & ->).
  unfold outDegreeSum, inDegreeSum, graphOfEdges; simpl.
  rewrite !map_map; simpl.
  repeat split; apply keyed_count; intros e He;
    apply in_matrixEdges in He; tauto.
Qed.

Lemma X7_degree_sums_witness :
  outDegreeSum (graphOfEdges "graph_0" 2 [mkEdge 0 0; mkEdge 1 1]) = 2
  /\ inDegreeSum (graphOfEdges "graph_0" 2 [mkEdge 0 0; mkEdge 1 1]) = 2
  /\ outDegreeSum (graphOfEdges "graph_1" 1 []) = 0
  /\ inDegreeSum (graphOfEdges "graph_1" 1 []) = 0.
Proof.
  exact (X7_degree_sums twoGraphs
           (graphOfEdges "graph_0" 2 [mkEdge 0 0; mkEdge 1 1])
           (graphOfEdges "graph_1" 1 []) eq_refl).
Defined.






(* ===================================================================== *)
(** ** The line stream *)
(* ===================================================================== *)

Lemma splitKeep_parts_noLF (s p : string) :
  In p (splitKeep LF s) -> noLF p = true.
Proof.
  revert p. induction s as [|c r IH]; simpl; intros p.
  - intros [<-|[]]. reflexivity.
  - destruct (Ascii.eqb c LF) eqn:Ec.
    + intros [<-|Hp]; [reflexivity|auto].
    + pose proof (splitKeep_not_nil LF r) as Hne.
      destruct (splitKeep LF r) as [|q qs]; [congruence|].
      intros [<-|Hp].
      * simpl. rewrite Ec. simpl. apply IH. left; reflexivity.
      * apply IH. right; exact Hp.
Qed.

Lemma trimLeft_noLF (s : string) : noLF s = true -> noLF (trimLeft s) = true.
Proof.
  induction s as [|c r IH]; simpl; [reflexivity|].
  intros H. destruct (isSpace c).
  - apply andb_prop in H as [_ H]. auto.
  - exact H.
Qed.

Lemma trimRight_noLF (s : string) : noLF s = true -> noLF (trimRight s) = true.
Proof.
  induction s as [|c r IH]; simpl; [reflexivity|].
  intros H. apply andb_prop in H as [Hc Hr]. specialize (IH Hr).
  destruct (trimRight r) as [|d t].
  - destruct (isSpace c); simpl; [reflexivity|]. rewrite Hc. reflexivity.
  - simpl in *. rewrite Hc. exact IH.
Qed.

Lemma trimRight_idem (s : string) : trimRight (trimRight s) = trimRight s.
Proof.
  induction s as [|c r IH]; simpl; [reflexivity|].
  destruct (trimRight r) as [|d t] eqn:E.
  - destruct (isSpace c) eqn:Ec; simpl; [reflexivity|]. rewrite Ec. reflexivity.
  - change (trimRight (String c (String d t)))
      with (match trimRight (String d t) with
            | EmptyString => if isSpace c then EmptyString else String c EmptyString
            | r' => String c r'
            end).
    rewrite IH. reflexivity.
Qed.

Lemma trimLeft_fix (s : string) :
  match s with EmptyString => True | String c _ => isSpace c = false end ->
  trimLeft s = s.
Proof. destruct s as [|c r]; simpl; [reflexivity|]. intros ->. reflexivity. Qed.

Lemma trimLeft_head (s : string) :
  match trimLeft s with
  | EmptyString => True
  | String c _ => isSpace c = false
  end.
Proof.
  induction s as [|c r IH]; simpl; [exact I|].
  destruct (isSpace c) eqn:Ec; [exact IH|exact Ec].
Qed.

Lemma trimRight_head (s : string) :
  match s with EmptyString => True | String c _ => isSpace c = false end ->
  match trimRight s with
  | EmptyString => True
  | String c _ => isSpace c = false
  end.
Proof.
  destruct s as [|c r]; simpl; [auto|]. intros Hc.
  destruct (trimRight r); [rewrite Hc|]; exact Hc.
Qed.

Lemma trimmed_idem (s : string) : trimmed (trimmed s) = trimmed s.
Proof.
  unfold trimmed.
  rewrite (trimLeft_fix (trimRight (trimLeft s))).
  - apply trimRight_idem.
  - apply trimRight_head, trimLeft_head.
Qed.

Lemma removeLastWhileEmpty_In (A : list string) (l : string) :
  In l (removeLastWhileEmpty A) -> In l A.
Proof.
  destruct (removeLastWhileEmpty_prefix A) as (T & HT & _).
  intros H. rewrite HT. apply in_or_app. left; exact H.
Qed.

Lemma removeLastWhileEmpty_rev_head (X : list string) (x : string)
  (r : list string) :
  removeLastWhileEmpty_rev X = x :: r -> isEmpty x = false.
Proof.
  induction X as [|y X IH]; simpl; [discriminate|].
  destruct (isEmpty y) eqn:E; [exact IH|].
  intros H. inversion H; subst. exact E.
Qed.

(** X9. Every line [parseData] hands to the block parser holds no newline
    and no white space at either end, and the last line of the stream is
    never empty (empty lines can only stand before it). *)
Theorem X9_line_stream_invariants (data : string) :
  (forall l, In l (trimmedLines data) -> noLF l = true /\ trimmed l = l)
  /\ (forall init l, trimmedLines data = init ++ [l] -> l <> EmptyString).
Proof.
  split.
  - intros l Hl. unfold trimmedLines in Hl.
    apply removeLastWhileEmpty_In in Hl.
    apply in_map_iff in Hl as (p & <- & Hp).
    unfold split in Hp. apply filter_In in Hp as [Hp _].
    apply splitKeep_parts_noLF in Hp. split.
    + unfold trimmed. apply trimRight_noLF, trimLeft_noLF. exact Hp.
    + apply trimmed_idem.
  - intros init l H. unfold trimmedLines, removeLastWhileEmpty in H.
    destruct (removeLastWhileEmpty_rev (rev (map trimmed (split LF data))))
      as [|x r] eqn:E.
    + simpl in H. destruct init; discriminate.
    + apply removeLastWhileEmpty_rev_head in E. simpl in H.
      apply app_inj_tail in H as [_ <-]. intros ->. discriminate.
Qed.

Lemma X9_line_stream_invariants_witness :
  (noLF "0 1" = true /\ trimmed "0 1" = "0 1") /\ "0" <> EmptyString.
Proof.
  split.
  - apply (proj1 (X9_line_stream_invariants
                    ("2" ++ nl ++ "  0 1 " ++ nl ++ "0" ++ nl ++ " " ++ nl)%string)).
    right; left. reflexivity.
  - apply (proj2 (X9_line_stream_invariants
                    ("2" ++ nl ++ "  0 1 " ++ nl ++ "0" ++ nl ++ " " ++ nl)%string)
             ["2"; "0 1"]).
    reflexivity.
Defined.

(* ===================================================================== *)
(** ** Texts written line by line *)
(* ===================================================================== *)

Lemma noLF_app (a b : string) : noLF (a ++ b) = noLF a && noLF b.
Proof.
  induction a as [|c r IH]; simpl; [reflexivity|].
  rewrite IH, andb_assoc. reflexivity.
Qed.

Lemma append_nil_r (a : string) : (a ++ EmptyString)%string = a.
Proof. induction a as [|c r IH]; simpl; congruence. Qed.

Lemma split_joinLines (w : string) (ls : list string) :
  noLF w = true ->
  (forall l, In l ls -> noLF l = true) ->
  split LF (joinLines (w ++ nl) ls) =
  filter (fun p => negb (isEmpty p)) (map (fun l => (l ++ w)%string) ls).
Proof.
  intros Hw. induction ls as [|l rest IH]; intros Hls.
  - reflexivity.
  - simpl joinLines. rewrite (append_assoc w nl), <- (append_assoc l w).
    change (nl ++ joinLines (w ++ nl) rest)%string
      with (String LF (joinLines (w ++ nl) rest)).
    rewrite split_app, IH by (intros; apply Hls; right; assumption).
    unfold split at 1. rewrite splitKeep_noLF.
    + simpl. destruct (isEmpty (l ++ w)); reflexivity.
    + rewrite noLF_app, Hw, (Hls l (or_introl eq_refl)). reflexivity.
Qed.

Lemma removeLastWhileEmpty_nonempty (ls : list string) :
  (forall l, In l ls -> isEmpty l = false) -> removeLastWhileEmpty ls = ls.
Proof.
  intros H. unfold removeLastWhileEmpty.
  destruct (rev ls) as [|x r] eqn:E.
  - simpl. rewrite <- (rev_involutive ls), E. reflexivity.
  - simpl. rewrite (H x).
    + rewrite <- E. apply rev_involutive.
    + apply in_rev. rewrite E. left; reflexivity.
Qed.

Lemma filter_all {A : Type} (f : A -> bool) (l : list A) :
  (forall a, In a l -> f a = true) -> filter f l = l.
Proof.
  induction l as [|a l IH]; simpl; intros H; [reflexivity|].
  rewrite (H a (or_introl eq_refl)), IH; auto.
Qed.

Lemma isEmpty_false (l : string) : l <> EmptyString -> isEmpty l = false.
Proof. destruct l; [congruence|reflexivity]. Qed.

Lemma trimmedLines_joinLines_nl (ls : list string) :
  (forall l, In l ls -> noLF l = true) ->
  trimmedLines (joinLines nl ls) =
  removeLastWhileEmpty
    (map trimmed (filter (fun p => negb (isEmpty p)) ls)).
Proof.
  intros Hls. unfold trimmedLines.
  change nl with (EmptyString ++ nl)%string.
  rewrite split_joinLines by auto.
  rewrite (map_ext _ (fun l => l) (fun l => append_nil_r l)), map_id.
  reflexivity.
Qed.

(** X10. Writing lines one per line and reading the text back is the
    identity on lines that can come out of the reader: for lines without
    newline, without white space at their ends and not empty, the line
    stream of the text that joins them with newlines is the list itself. *)
Theorem X10_lines_round_trip (ls : list string) :
  (forall l, In l ls -> noLF l = true /\ trimmed l = l /\ l <> EmptyString) ->
  trimmedLines (joinLines nl ls) = ls.
Proof.
  intros H. rewrite trimmedLines_joinLines_nl by (intros l Hl; apply (H l Hl)).
  rewrite filter_all.
  - rewrite (map_ext_in trimmed (fun l => l)), map_id.
    + apply removeLastWhileEmpty_nonempty.
      intros l Hl. apply isEmpty_false. apply (H l Hl).
    + intros l Hl. apply (H l Hl).
  - intros l Hl. rewrite isEmpty_false; [reflexivity|]. apply (H l Hl).
Qed.

Lemma X10_lines_round_trip_witness :
  trimmedLines (joinLines nl ["2"; "1 0"; "0 1"; "1"; "0"]) =
  ["2"; "1 0"; "0 1"; "1"; "0"].
Proof.
  apply X10_lines_round_trip.
  intros l [<-|[<-|[<-|[<-|[<-|[]]]]]];
    (split; [reflexivity|split; [reflexivity|discriminate]]).
Defined.

Lemma trimRight_allSpace (w : string) :
  allSpace w = true -> trimRight w = EmptyString.
Proof.
  induction w as [|c r IH]; simpl; [reflexivity|].
  intros H. apply andb_prop in H as [Hc Hr]. rewrite (IH Hr), Hc. reflexivity.
Qed.

Lemma trimRight_app_space (x w : string) :
  allSpace w = true -> trimRight (x ++ w) = trimRight x.
Proof.
  intros Hw. induction x as [|c r IH]; simpl.
  - apply trimRight_allSpace. exact Hw.
  - rewrite IH. reflexivity.
Qed.

Lemma trimmed_app_space (l w : string) :
  allSpace w = true -> trimmed (l ++ w) = trimmed l.
Proof.
  intros Hw. unfold trimmed. induction l as [|c r IH]; simpl.
  - rewrite trimLeft_allSpace by assumption. reflexivity.
  - destruct (isSpace c); [exact IH|].
    change (String c (r ++ w)) with (String c r ++ w)%string.
    apply trimRight_app_space. exact Hw.
Qed.

Lemma trimmedLines_joinLines_crlf (ls : list string) :
  (forall l, In l ls -> noLF l = true) ->
  trimmedLines (joinLines crlf ls) = removeLastWhileEmpty (map trimmed ls).
Proof.
  intros Hls. unfold trimmedLines.
  change crlf with (String CR EmptyString ++ nl)%string.
  rewrite split_joinLines by auto.
  rewrite filter_all.
  - rewrite map_map. f_equal. apply map_ext. intros l.
    apply trimmed_app_space. reflexivity.
  - intros p Hp. apply in_map_iff in Hp as (l & <- & _).
    destruct l; reflexivity.
Qed.

(** X11. Line endings.  With newline endings an empty line is dropped; with
    carriage return and newline endings every line is kept, an empty one as
    an empty line of the stream, because the carriage return survives the
    split and is trimmed afterwards.  So a text whose lines are all
    non-empty has the same line stream, and the same outcome, under both
    endings. *)
Theorem X11_line_endings :
  (forall ls,
      (forall l, In l ls -> noLF l = true) ->
      trimmedLines (joinLines nl ls) =
        removeLastWhileEmpty
          (map trimmed (filter (fun p => negb (isEmpty p)) ls))
      /\ trimmedLines (joinLines crlf ls) =
           removeLastWhileEmpty (map trimmed ls))
  /\ (forall ls,
        (forall l, In l ls -> noLF l = true /\ l <> EmptyString) ->
        trimmedLines (joinLines crlf ls) = trimmedLines (joinLines nl ls)
        /\ parseData (joinLines crlf ls) = parseData (joinLines nl ls)).
Proof.
  split.
  - intros ls Hls. split.
    + apply trimmedLines_joinLines_nl. exact Hls.
    + apply trimmedLines_joinLines_crlf. exact Hls.
  - intros ls Hls.
    assert (E : trimmedLines (joinLines crlf ls) = trimmedLines (joinLines nl ls)).
    { rewrite trimmedLines_joinLines_crlf, trimmedLines_joinLines_nl
        by (intros l Hl; apply (Hls l Hl)).
      rewrite filter_all; [reflexivity|].
      intros l Hl. rewrite isEmpty_false; [reflexivity|]. apply (Hls l Hl). }
    split; [exact E|]. unfold parseData. rewrite E. reflexivity.
Qed.

Lemma X11_line_endings_witness :
  (trimmedLines (joinLines nl ["1"; "0"; EmptyString; "1"; "0"]) =
     ["1"; "0"; "1"; "0"]
   /\ trimmedLines (joinLines crlf ["1"; "0"; EmptyString; "1"; "0"]) =
        ["1"; "0"; EmptyString; "1"; "0"])
  /\ (trimmedLines (joinLines crlf ["1"; "0"; "1"; "0"]) =
        trimmedLines (joinLines nl ["1"; "0"; "1"; "0"])
      /\ parseData (joinLines crlf ["1"; "0"; "1"; "0"]) =
           parseData (joinLines nl ["1"; "0"; "1"; "0"])).
Proof.
  split.
  - apply (proj1 X11_line_endings ["1"; "0"; EmptyString; "1"; "0"]).
    intros l [<-|[<-|[<-|[<-|[<-|[]]]]]]; reflexivity.
  - apply (proj2 X11_line_endings ["1"; "0"; "1"; "0"]).
    intros l [<-|[<-|[<-|[<-|[]]]]]; (split; [reflexivity|discriminate]).
Defined.

(* ===================================================================== *)
(** ** Spaces in a row *)
(* ===================================================================== *)

Lemma split_trailing_sep (sep : ascii) (a : string) :
  split sep (a ++ String sep EmptyString) = split sep a.
Proof. rewrite split_app. unfold split at 2. simpl. apply app_nil_r. Qed.

Lemma parseRow_same_tokens (pre post : list string) (l l' : string)
  (currentLine : nat) (N : Z) (g i : nat) (st : Graph) :
  split SP l = split SP l' ->
  parseRow (pre ++ l :: post) currentLine N g i st =
  parseRow (pre ++ l' :: post) currentLine N g i st.
Proof.
  intros Htok. unfold parseRow, at_.
  destruct (Nat.lt_trichotomy (currentLine + i) (length pre)) as [Hlt|[Heq|Hgt]].
  - rewrite !nth_error_app1 by assumption. reflexivity.
  - rewrite !nth_error_app2 by lia. rewrite Heq, Nat.sub_diag. simpl.
    rewrite Htok. reflexivity.
  - rewrite !nth_error_app2 by lia.
    destruct (currentLine + i - length pre) as [|k] eqn:E; [lia|]. reflexivity.
Qed.

(** X12. Spaces in a matrix row.  A row is read through its tokens only:
    doubling a space, or putting a space before or after the row, leaves
    the tokens unchanged, and replacing any line after the count line of a
    block by a line with the same tokens leaves the outcome of the block
    unchanged, graph and exceptions alike. *)
Theorem X12_row_spacing :
  (forall a b,
      split SP (a ++ " " ++ " " ++ b) = split SP (a ++ " " ++ b))
  /\ (forall a, split SP (" " ++ a) = split SP a
                /\ split SP (a ++ " ") = split SP a)
  /\ (forall pre post l l' startLine g,
        startLine < length pre ->
        split SP l = split SP l' ->
        parseSingleGraph (pre ++ l :: post) startLine g =
        parseSingleGraph (pre ++ l' :: post) startLine g).
Proof.
  split; [|split].
  - intros a b.
    change (a ++ " " ++ " " ++ b)%string
      with (a ++ String SP (String SP b))%string.
    change (a ++ " " ++ b)%string with (a ++ String SP b)%string.
    rewrite !split_app, split_leading_sep. reflexivity.
  - intros a. split.
    + change (" " ++ a)%string with (String SP a). apply split_leading_sep.
    + change (a ++ " ")%string with (a ++ String SP EmptyString)%string.
      apply split_trailing_sep.
  - intros pre post l l' startLine g Hs Htok.
    unfold parseSingleGraph, at_.
    rewrite !length_app. simpl length.
    rewrite !nth_error_app1 by assumption.
    destruct (length pre + Datatypes.S (length post) <=? startLine); [reflexivity|].
    destruct (nth_error pre startLine) as [countLine|]; [|reflexivity].
    simpl. destruct (toInt countLine) as [v ok].
    destruct (negb ok || (v <=? 0)%Z); [reflexivity|].
    destruct (INT_MAX <? Z.of_nat (startLine + 1) + v)%Z; [reflexivity|].
    destruct (Z.of_nat (length pre + Datatypes.S (length post))
              <? Z.of_nat (startLine + 1) + v)%Z; [reflexivity|].
    destruct (addVertices v _) as [g0| |]; simpl; try reflexivity.
    rewrite (forLoop_ext (parseRow (pre ++ l :: post) (startLine + 1) v g)
               (parseRow (pre ++ l' :: post) (startLine + 1) v g)).
    + reflexivity.
    + intros k st _. apply parseRow_same_tokens. exact Htok.
Qed.

Lemma X12_row_spacing_witness :
  parseSingleGraph (["2"; "1 0"] ++ "0   1 " :: ["1"; "0"]) 0 0 =
  parseSingleGraph (["2"; "1 0"] ++ "0 1" :: ["1"; "0"]) 0 0.
Proof.
  apply (proj2 (proj2 X12_row_spacing)).
  - vm_compute. lia.
  - reflexivity.
Defined.

(* ===================================================================== *)
(** ** A block further down the text *)
(* ===================================================================== *)

Lemma nth_error_shift {A : Type} (pre l : list A) (k : nat) :
  nth_error (pre ++ l) (length pre + k) = nth_error l k.
Proof.
  rewrite nth_error_app2 by lia. f_equal. lia.
Qed.

Section Shift.

Variables pre lines : list string.

Lemma countLineIs_shift (startLine : nat) (N : Z) :
  countLineIs (pre ++ lines) (length pre + startLine) N =
  countLineIs lines startLine N.
Proof. unfold countLineIs. rewrite nth_error_shift. reflexivity. Qed.

Lemma rowsPresent_shift (startLine : nat) (N : Z) :
  rowsPresent (pre ++ lines) (length pre + startLine) N =
  rowsPresent lines startLine N.
Proof.
  unfold rowsPresent. rewrite length_app.
  destruct (Z.leb_spec (Z.of_nat (length pre + startLine + 1) + N)
              (Z.of_nat (length pre + length lines))),
    (Z.leb_spec (Z.of_nat (startLine + 1) + N) (Z.of_nat (length lines)));
    try reflexivity; lia.
Qed.

Lemma matrixChecks_shift (startLine : nat) (N : Z) (b : nat) :
  matrixChecks (pre ++ lines) (length pre + startLine + 1) N b =
  matrixChecks lines (startLine + 1) N b.
Proof.
  unfold matrixChecks. apply flat_map_ext. intros i. unfold rowChecks.
  replace (length pre + startLine + 1 + i)
    with (length pre + (startLine + 1 + i)) by lia.
  rewrite nth_error_shift. reflexivity.
Qed.

Lemma matrixEdges_shift (startLine N : nat) :
  matrixEdges (cellOne (pre ++ lines) (length pre + startLine)) N =
  matrixEdges (cellOne lines startLine) N.
Proof.
  unfold matrixEdges. apply flat_map_ext. intros i. unfold rowEdges.
  apply flat_map_ext. intros j. unfold cellOne.
  replace (length pre + startLine + 1 + i)
    with (length pre + (startLine + 1 + i)) by lia.
  rewrite nth_error_shift. reflexivity.
Qed.

End Shift.

Lemma parseSingleGraph_shift_Return (pre lines : list string)
  (startLine b : nat) (g : Graph) (nextLine : nat) :
  parseSingleGraph lines startLine b = Return (g, nextLine) ->
  (Z.of_nat (length pre + nextLine) <= INT_MAX)%Z ->
  parseSingleGraph (pre ++ lines) (length pre + startLine) b =
  Return (g, length pre + nextLine).
Proof.
  intros H Hfit.
  apply parseSingleGraph_Return_inv in H as (N & Hc & Hr & _ & Hk & -> & ->).
  pose proof (countLineIs_pos _ _ _ Hc) as Hpos.
  rewrite (parseSingleGraph_scan _ _ _ N).
  - rewrite matrixChecks_shift, matrixEdges_shift, Hk.
    do 2 f_equal. lia.
  - lia.
  - rewrite countLineIs_shift. exact Hc.
  - rewrite rowsPresent_shift. exact Hr.
Qed.

(** X13. A block that starts further down the line list is parsed like the
    same block standing first: the same graph, or the same exception
    (rows and columns in exceptions are counted inside the block, never
    from the top of the text), and a cursor moved by the number of lines
    before it.  The precondition keeps the cursor arithmetic of the moved
    block within [int]. *)
Theorem X13_block_is_position_independent (pre lines : list string)
  (startLine b : nat) :
  (forall N, countLineIs lines startLine N = true ->
             (Z.of_nat (length pre + startLine + 1) + N <= INT_MAX)%Z) ->
  parseSingleGraph (pre ++ lines) (length pre + startLine) b =
  shiftNext (length pre) (parseSingleGraph lines startLine b).
Proof.
  intros Hfit.
  destruct (parseSingleGraph_cases lines startLine b)
    as [[Hend E]|[(cl & Hcl & Hbad & E)|[(N & Hc & Ho & E)
       |[(N & Hc & Ho & Hr & E)|(N & Hc & Ho & Hr & E)]]]];
    rewrite E; simpl.
  - apply parseSingleGraph_end. rewrite length_app. lia.
  - apply parseSingleGraph_badCount; [|exact Hbad].
    rewrite nth_error_shift. exact Hcl.
  - specialize (Hfit N Hc). lia.
  - apply (parseSingleGraph_notEnough _ _ _ N).
    + rewrite countLineIs_shift. exact Hc.
    + apply (Hfit N Hc).
    + rewrite rowsPresent_shift. exact Hr.
  - rewrite (parseSingleGraph_scan _ _ _ N).
    + rewrite matrixChecks_shift, matrixEdges_shift.
      destruct (firstSome _); simpl; [reflexivity|].
      do 2 f_equal. lia.
    + apply (Hfit N Hc).
    + rewrite countLineIs_shift. exact Hc.
    + rewrite rowsPresent_shift. exact Hr.
Qed.

Lemma X13_block_is_position_independent_witness :
  parseSingleGraph (["2"; "1 0"; "0 1"] ++ ["2"; "0 1"; "x 0"]) (3 + 0) 1 =
  shiftNext 3 (parseSingleGraph ["2"; "0 1"; "x 0"] 0 1).
Proof.
  apply (X13_block_is_position_independent ["2"; "1 0"; "0 1"]
           ["2"; "0 1"; "x 0"] 0 1).
  intros N HN. apply countLineIs_fun with (N := 2%Z) in HN; [|reflexivity].
  subst N. vm_compute. discriminate.
Defined.

(** X14. Blocks compose.  If a list of lines is one whole block (parsed
    from its first line, the parser returns at its end) and a second list
    of lines is one whole block as well, then the two lists one after the
    other, followed by any further lines, parse to the two graphs; the
    second graph only changes its identifier with its position. *)
Theorem X14_blocks_compose (block1 block2 rest : list string) (g1 g2 : Graph) :
  parseSingleGraph block1 0 0 = Return (g1, length block1) ->
  parseSingleGraph block2 0 1 = Return (g2, length block2) ->
  fitsInt (block1 ++ block2) ->
  parseLines (block1 ++ block2 ++ rest) = Return (g1, g2).
Proof.
  intros H1 H2 Hfit.
  apply (parseLines_Return_intro _ g1 g2 (length block1)
           (length block1 + length block2)).
  - apply (parseSingleGraph_agree block1); auto.
    intros k Hk. apply nth_error_app1. exact Hk.
  - assert (H2' : parseSingleGraph (block2 ++ rest) 0 1 =
                  Return (g2, length block2)).
    { apply (parseSingleGraph_agree block2); auto.
      intros k Hk. apply nth_error_app1. exact Hk. }
    replace (length block1) with (length block1 + 0) at 1 by lia.
    apply parseSingleGraph_shift_Return; [exact H2'|].
    unfold fitsInt in Hfit. rewrite length_app in Hfit. lia.
Qed.

Lemma X14_blocks_compose_witness :
  parseLines (["2"; "1 0"; "0 1"] ++ ["1"; "0"] ++ ["mapping"]) =
  Return (graphOfEdges "graph_0" 2 [mkEdge 0 0; mkEdge 1 1],
          graphOfEdges "graph_1" 1 []).
Proof.
  apply X14_blocks_compose.
  - reflexivity.
  - reflexivity.
  - unfold fitsInt. vm_compute. discriminate.
Defined.

Lemma splitKeep_noChar (sep : ascii) (s : string) :
  noChar sep s = true -> splitKeep sep s = [s].
Proof.
  induction s as [|c r IH]; simpl; [reflexivity|].
  intros H. apply andb_prop in H as [Hc Hr].
  destruct (Ascii.eqb c sep); [discriminate|]. rewrite (IH Hr). reflexivity.
Qed.

(** X15. Only the space separates tokens.  A matrix row that holds no
    space is one token, whatever other white space it holds inside: in a
    block that declares two or more vertices such a row, once the scan
    reaches it, fails with the row-length exception reporting one value
    (none if the row is empty).  A matrix written with tabulators is
    rejected in this way. *)
Theorem X15_only_space_separates (data : string) (b startLine : nat) (N : Z)
  (i : nat) (line : string) :
  blockStart (trimmedLines data) b = Some startLine ->
  fitsInt (trimmedLines data) ->
  countLineIs (trimmedLines data) startLine N = true ->
  rowsPresent (trimmedLines data) startLine N = true ->
  (2 <= N)%Z ->
  i < Z.to_nat N ->
  (forall k, k < i -> rowValid (trimmedLines data) (startLine + 1) N k = true) ->
  nth_error (trimmedLines data) (startLine + 1 + i) = Some line ->
  noChar SP line = true ->
  split SP line = (if isEmpty line then [] else [line])
  /\ parseData data =
       Throw (BadRowLength (i + 1) (b + 1) (if isEmpty line then 0 else 1) N).
Proof.
  intros Hstart Hfit Hc Hr HN Hi Hbefore Hline Hsp.
  assert (Hsplit : split SP line = (if isEmpty line then [] else [line])).
  { unfold split. rewrite splitKeep_noChar by assumption. simpl.
    destruct (isEmpty line); reflexivity. }
  split; [exact Hsplit|].
  apply (parseData_first_failure data b startLine N _ Hstart Hfit Hc Hr).
  apply (first_bad_row _ _ _ _ i); auto.
  unfold rowChecks. rewrite Hline, Hsplit.
  cbv zeta. cbn [firstSome].
  destruct (isEmpty line); cbn [length].
  - destruct (Z.eqb_spec (Z.of_nat 0) N) as [E|E]; [lia|reflexivity].
  - destruct (Z.eqb_spec (Z.of_nat 1) N) as [E|E]; [lia|reflexivity].
Qed.

Lemma X15_only_space_separates_witness :
  split SP (String "0" (String TAB "1")) = [String "0" (String TAB "1")]
  /\ parseData tabbedMatrix = Throw (BadRowLength 1 1 1 2).
Proof.
  apply (X15_only_space_separates tabbedMatrix 0 0 2 0
           (String "0" (String TAB "1"))).
  - reflexivity.
  - unfold fitsInt. vm_compute. discriminate.
  - reflexivity.
  - reflexivity.
  - lia.
  - vm_compute. lia.
  - intros k Hk. lia.
  - reflexivity.
  - reflexivity.
Defined.
